(** * entrypoint_gen: driver synthesis for C translation units

    A shallow embedding of the analysis and synthesis scripts
    ([find_entrypoints.py], [find_globals_and_externs.py],
    [generate_driver.py], [generate_driver_2.py], [preprocess_c_file.py],
    [main.py], [main2.py], [standalone_driver_gen.py]).

    The libclang front end is an external collaborator: the scripts only
    query cursors.  A cursor is modelled as a finite tree carrying the
    attributes the scripts read; Python sets are [gset string], Python
    dictionaries keyed by name are [gmap string _], the [driver_code]
    line buffers are [list string]. *)

From Stdlib Require Import Ascii String.
From stdpp Require Import gmap strings list pretty.

Local Open Scope string_scope.
Local Open Scope list_scope.

#[local] Set Warnings "-register-all".

(** ** The libclang query surface ([clang.cindex]) *)

Module Clang.

(** [clang.cindex.CursorKind], restricted to the kinds the scripts test for. *)
Inductive CursorKind :=
| TRANSLATION_UNIT
| FUNCTION_DECL
| VAR_DECL
| PARM_DECL
| CALL_EXPR
| DECL_REF_EXPR
| COMPOUND_STMT
| UNEXPOSED_EXPR.

#[global] Instance CursorKind_eq_dec : EqDecision CursorKind.
Proof. solve_decision. Defined.

(** [clang.cindex.TypeKind], restricted likewise. *)
Inductive TypeKind :=
| VOID
| INT
| CHAR_S
| POINTER
| FUNCTIONPROTO
| FUNCTIONNOPROTO
| RECORD.

#[global] Instance TypeKind_eq_dec : EqDecision TypeKind.
Proof. solve_decision. Defined.

(** [clang.cindex.Type]: [spelling], [kind], [is_const_qualified()],
    [is_function_variadic()], [get_pointee()]. *)
Inductive CType := mkCType {
  ty_spelling : string;
  ty_kind : TypeKind;
  is_const_qualified : bool;
  is_function_variadic : bool;
  get_pointee : option CType
}.

(** The declaration a [DECL_REF_EXPR] resolves to ([cursor.referenced]),
    with the attributes read from it: [kind], [spelling],
    [is_definition()], [type.is_const_qualified()] and
    [semantic_parent.kind]. *)
Record Referenced := mkReferenced {
  ref_kind : CursorKind;
  ref_spelling : string;
  ref_is_definition : bool;
  ref_is_const_qualified : bool;
  ref_semantic_parent_kind : CursorKind
}.

(** [clang.cindex.Cursor]. *)
Inductive Cursor := mkCursor {
  kind : CursorKind;
  spelling : string;
  is_definition : bool;
  type : CType;
  result_type : CType;
  referenced : Referenced;
  get_children : list Cursor
}.

(** [Cursor.walk_preorder()]: the cursor itself, then the pre-order walk
    of every child, in order. *)
Fixpoint walk_preorder (c : Cursor) : list Cursor :=
  match c with
  | mkCursor _ _ _ _ _ _ children => c :: flat_map walk_preorder children
  end.

(** The part of the environment the scripts consult: [os.path.exists]
    and [Index.parse], whose result the scripts test with [if not tu]. *)
Record Frontend := mkFrontend {
  path_exists : string → bool;
  index_parse : string → option Cursor
}.

End Clang.

Import Clang.

(** ** [find_entrypoints.py] ([main.py] and [standalone_driver_gen.py]
    carry copies with the same loops) *)

Module FindEntrypoints.

(** The inner loop over [cursor.walk_preorder()]: every [CALL_EXPR] whose
    spelling is in [function_names] is added to [callees]. *)
Definition scan_calls (function_names : list string)
    (callees : gset string) (cursor : Cursor) : gset string :=
  fold_left (λ callees child,
    if bool_decide (kind child = CALL_EXPR) then
      let callee_name := spelling child in
      if bool_decide (callee_name ∈ function_names)
      then callees ∪ {[ callee_name ]}
      else callees
    else callees) (walk_preorder cursor) callees.

(** The outer loop over [tu.cursor.walk_preorder()]. *)
Definition collect_callees (tu : Cursor) (function_names : list string)
    : gset string :=
  fold_left (λ callees cursor,
    if bool_decide (kind cursor = FUNCTION_DECL) && is_definition cursor then
      let caller_name := spelling cursor in
      if bool_decide (caller_name ∈ function_names)
      then scan_calls function_names callees cursor
      else callees
    else callees) (walk_preorder tu) ∅.

(** The body once the translation unit is available. *)
Definition entrypoints_of (tu : Cursor) (function_names : list string)
    : gset string :=
  let callees := collect_callees tu function_names in
  list_to_set function_names ∖ callees.

Definition find_entrypoints (fe : Frontend)
    (preprocessed_file_path : string) (function_names : list string)
    : gset string :=
  if negb (path_exists fe preprocessed_file_path) then ∅
  else match index_parse fe preprocessed_file_path with
       | None => ∅
       | Some tu => entrypoints_of tu function_names
       end.

End FindEntrypoints.

(** ** [find_globals_and_externs.py] *)

(** The dictionary [{'global_vars': ..., 'external_funcs': ...}]. *)
Record Usage := mkUsage {
  global_vars : gset string;
  external_funcs : gset string
}.

Module FindGlobalsAndExterns.

(** Classification of one cursor of a function body.  A global variable
    is recorded only when its type is not const-qualified. *)
Definition classify (function_names_set : gset string) (acc : Usage)
    (child : Cursor) : Usage :=
  if bool_decide (kind child = DECL_REF_EXPR) then
    let referenced := referenced child in
    if bool_decide (ref_kind referenced = VAR_DECL)
       && bool_decide (ref_semantic_parent_kind referenced = TRANSLATION_UNIT)
       && negb (ref_is_const_qualified referenced)
    then mkUsage (global_vars acc ∪ {[ ref_spelling referenced ]})
                 (external_funcs acc)
    else if bool_decide (ref_kind referenced = FUNCTION_DECL)
            && negb (ref_is_definition referenced)
            && bool_decide (ref_spelling referenced ∉ function_names_set)
    then mkUsage (global_vars acc)
                 (external_funcs acc ∪ {[ ref_spelling referenced ]})
    else acc
  else acc.

(** The loop over [tu.cursor.walk_preorder()] and, inside every analysed
    definition, over [func_cursor.walk_preorder()]. *)
Definition usage_of (tu : Cursor) (function_names : list string) : Usage :=
  let function_names_set : gset string := list_to_set function_names in
  fold_left (λ acc func_cursor,
    if bool_decide (kind func_cursor = FUNCTION_DECL)
       && is_definition func_cursor
       && bool_decide (spelling func_cursor ∈ function_names_set)
    then fold_left (classify function_names_set)
                   (walk_preorder func_cursor) acc
    else acc) (walk_preorder tu) (mkUsage ∅ ∅).

Definition find_globals_and_externs (fe : Frontend)
    (preprocessed_file_path : string) (function_names : list string)
    : Usage :=
  if negb (path_exists fe preprocessed_file_path) then mkUsage ∅ ∅
  else match index_parse fe preprocessed_file_path with
       | None => mkUsage ∅ ∅
       | Some tu => usage_of tu function_names
       end.

End FindGlobalsAndExterns.

(** ** Python string helpers *)

(** The newline and the double-quote characters. *)
Definition nl : string := String "010"%char EmptyString.
Definition dq : string := String "034"%char EmptyString.

(** [sep.join(lines)]. *)
Definition join (sep : string) (lines : list string) : string :=
  String.concat sep lines.

(** [s or default]: the empty string is falsy. *)
Definition str_or (s default : string) : string :=
  if bool_decide (s = EmptyString) then default else s.

(** [s.split(sep)] for a non-empty [sep]: the pieces between the leftmost
    non-overlapping occurrences of [sep].  [skip] counts the characters of
    an occurrence still to be consumed. *)
Fixpoint split_from (sep : string) (skip : nat) (s : string) : list string :=
  match s with
  | EmptyString => [EmptyString]
  | String a s' =>
      match skip with
      | S k => split_from sep k s'
      | O =>
          if String.prefix sep s
          then EmptyString :: split_from sep (String.length sep - 1) s'
          else match split_from sep 0 s' with
               | piece :: pieces => String a piece :: pieces
               | [] => [String a EmptyString]
               end
      end
  end.

Definition split (sep s : string) : list string := split_from sep 0 s.

(** ** [generate_driver.py] ([standalone_driver_gen.py] carries a
    verbatim copy; the copy in [main.py] has the same loops and leaves
    the two comment lines out of the header) *)

Module GenerateDriver.

(** The lines appended before the translation unit is parsed. *)
Definition header (c_file_name : string) : list string :=
  [ "#include " +:+ dq +:+ c_file_name +:+ dq +:+ nl;
    "// Forward declaration for the function to create unknown values.";
    "void make_unknown(void *data, unsigned long size);" +:+ nl;
    "// A simple max macro.";
    "#define max(a,b) (((a) > (b)) ? (a) : (b))" +:+ nl;
    "int main() {" ].

(** The dictionary [function_decls]: a later definition of the same name
    overwrites an earlier one. *)
Definition function_decls (tu : Cursor) : gmap string Cursor :=
  fold_left (λ decls cursor,
    if bool_decide (kind cursor = FUNCTION_DECL) && is_definition cursor
    then <[ spelling cursor := cursor ]> decls
    else decls) (walk_preorder tu) ∅.

(** [[c for c in func_cursor.get_children() if c.kind == PARM_DECL]]. *)
Definition params (func_cursor : Cursor) : list Cursor :=
  filter (λ c, kind c = PARM_DECL) (get_children func_cursor).

(** One iteration of [for param in params], on the pair
    ([driver_code], [arg_names]). *)
Definition declare_param (st : list string * list string) (param : Cursor)
    : list string * list string :=
  let '(driver_code, arg_names) := st in
  let arg_name := str_or (spelling param)
                         ("arg_" +:+ pretty (length arg_names)) in
  let arg_type := ty_spelling (type param) in
  let arg_names := arg_names ++ [arg_name] in
  let driver_code :=
    driver_code ++ ["        " +:+ arg_type +:+ " " +:+ arg_name +:+ ";"] in
  let driver_code :=
    if bool_decide (ty_kind (type param) = POINTER)
    then driver_code ++
         ["        make_unknown(&" +:+ arg_name +:+ ", max(16, sizeof(*"
            +:+ arg_name +:+ ")));"]
    else driver_code ++
         ["        make_unknown(&" +:+ arg_name +:+ ", sizeof("
            +:+ arg_name +:+ "));"] in
  (driver_code, arg_names).

(** One iteration of [for entrypoint in entrypoints]. *)
Definition emit_entrypoint (decls : gmap string Cursor)
    (driver_code : list string) (entrypoint : string) : list string :=
  match decls !! entrypoint with
  | None =>
      driver_code ++
      ["    // Warning: Could not find definition for entrypoint '"
         +:+ entrypoint +:+ "'. Skipping."]
  | Some func_cursor =>
      let driver_code := driver_code ++ ["    {"] in
      let '(driver_code, arg_names) :=
        fold_left declare_param (params func_cursor) (driver_code, []) in
      let driver_code :=
        driver_code ++
        ["        " +:+ entrypoint +:+ "(" +:+ join ", " arg_names +:+ ");"] in
      driver_code ++ ["    }"]
  end.

(** The line buffer [driver_code] at the end of the function. *)
Definition driver_lines (c_file_name : string) (tu : Cursor)
    (entrypoints : list string) : list string :=
  let driver_code := header c_file_name in
  let driver_code :=
    fold_left (emit_entrypoint (function_decls tu)) entrypoints driver_code in
  let driver_code := driver_code ++ ["    return 0;"] in
  driver_code ++ ["}"].

Definition generate_driver (fe : Frontend) (c_file_name : string)
    (preprocessed_file_path : string) (entrypoints : list string) : string :=
  if negb (path_exists fe preprocessed_file_path) then EmptyString
  else match index_parse fe preprocessed_file_path with
       | None => EmptyString
       | Some tu => join nl (driver_lines c_file_name tu entrypoints)
       end.

End GenerateDriver.

(** ** [generate_driver_2.py] *)

Module GenerateDriver2.

Definition header : list string :=
  [ "// Forward declarations for utility functions.";
    "void make_unknown(void *data, unsigned long size);";
    "void *alloc_safe(unsigned long size);";
    "void _check_initialized(void *data, unsigned long size);";
    "#define check_initialized(x) _check_initialized(&(x), sizeof(x))" +:+ nl ].

(** [get_pointee()] of a type that is not a pointer is libclang's invalid
    type: empty spelling, not const-qualified. *)
Definition pointee_spelling (t : CType) : string :=
  match get_pointee t with
  | Some p => ty_spelling p
  | None => EmptyString
  end.

Definition pointee_is_const_qualified (t : CType) : bool :=
  match get_pointee t with
  | Some p => is_const_qualified p
  | None => false
  end.

(** One iteration of [for var_name in global_vars]: the inner search stops
    at the first [VAR_DECL] of that spelling. *)
Definition randomize_var (tu : Cursor) (driver_code : list string)
    (var_name : string) : list string :=
  if existsb (λ cursor, bool_decide (kind cursor = VAR_DECL)
                        && bool_decide (spelling cursor = var_name))
             (walk_preorder tu)
  then driver_code ++
       ["    make_unknown(&" +:+ var_name +:+ ", sizeof(" +:+ var_name +:+ "));"]
  else driver_code.

(** The first loop over [cursor.get_children()], on the triple
    ([param_decls], [param_names], [i]). *)
Definition collect_param (st : list string * list string * nat)
    (param : Cursor) : list string * list string * nat :=
  let '(param_decls, param_names, i) := st in
  if bool_decide (kind param = PARM_DECL) then
    let param_name := str_or (spelling param) ("arg" +:+ pretty i) in
    let param_type := ty_spelling (type param) in
    (param_decls ++ [param_type +:+ " " +:+ param_name],
     param_names ++ [param_name],
     i + 1)
  else st.

(** The variadic step that follows the first loop. *)
Definition add_variadic (cursor : Cursor) (param_decls : list string)
    : list string :=
  if bool_decide (ty_kind (type cursor) = FUNCTIONPROTO)
     && is_function_variadic (type cursor)
  then match param_decls with
       | [] => param_decls ++ ["void, ..."]
       | _ :: _ => param_decls ++ ["..."]
       end
  else param_decls.

(** The second loop over [cursor.get_children()], on the pair
    ([driver_code], [i]). *)
Definition check_param (st : list string * nat) (param : Cursor)
    : list string * nat :=
  let '(driver_code, i) := st in
  if bool_decide (kind param = PARM_DECL) then
    let param_name := str_or (spelling param) ("arg" +:+ pretty i) in
    let driver_code :=
      driver_code ++ ["    check_initialized(" +:+ param_name +:+ ");"] in
    let driver_code :=
      if bool_decide (ty_kind (type param) = POINTER) then
        let driver_code :=
          driver_code ++ ["    check_initialized(*" +:+ param_name +:+ ");"] in
        if negb (pointee_is_const_qualified (type param))
        then driver_code ++
             ["    make_unknown(" +:+ param_name +:+ ", sizeof(*"
                +:+ param_name +:+ "));"]
        else driver_code
      else driver_code in
    (driver_code, i + 1)
  else st.

(** The lines that produce the return value. *)
Definition return_lines (cursor : Cursor) (driver_code : list string)
    : list string :=
  let return_type := ty_spelling (result_type cursor) in
  if bool_decide (ty_kind (result_type cursor) ≠ VOID) then
    let driver_code :=
      if bool_decide (ty_kind (result_type cursor) = POINTER)
      then (driver_code ++
            ["    " +:+ return_type +:+ " out = (" +:+ return_type
               +:+ ")alloc_safe(sizeof("
               +:+ pointee_spelling (result_type cursor) +:+ "));"])
           ++ ["    make_unknown(out, sizeof(*out));"]
      else (driver_code ++ ["    " +:+ return_type +:+ " out;"])
           ++ ["    make_unknown(&out, sizeof(out));"] in
    driver_code ++ ["    return out;"]
  else driver_code.

(** The signature line of a stub. *)
Definition signature_line (cursor : Cursor) (param_decls : list string)
    : string :=
  ty_spelling (result_type cursor) +:+ " " +:+ spelling cursor +:+ "("
    +:+ join ", " param_decls +:+ ") {".

(** One iteration of the loop that generates the stubs. *)
Definition emit_stub (external_funcs : list string)
    (driver_code : list string) (cursor : Cursor) : list string :=
  if bool_decide (kind cursor = FUNCTION_DECL)
     && bool_decide (spelling cursor ∈ external_funcs)
     && negb (is_definition cursor)
  then
    let '(param_decls, param_names, _) :=
      fold_left collect_param (get_children cursor) ([], [], 0) in
    let param_decls := add_variadic cursor param_decls in
    let driver_code := driver_code ++ [signature_line cursor param_decls] in
    let driver_code := driver_code ++ ["    randomize_all_global_vars();"] in
    let '(driver_code, _) :=
      fold_left check_param (get_children cursor) (driver_code, 0) in
    let driver_code := return_lines cursor driver_code in
    driver_code ++ ["}" +:+ nl]
  else driver_code.

(** The line buffer [driver_code] at the end of the function. *)
Definition driver_lines (tu : Cursor) (global_vars external_funcs : list string)
    : list string :=
  let driver_code := header in
  let driver_code := driver_code ++ ["void randomize_all_global_vars() {"] in
  let driver_code := fold_left (randomize_var tu) global_vars driver_code in
  let driver_code := driver_code ++ ["}" +:+ nl] in
  fold_left (emit_stub external_funcs) (walk_preorder tu) driver_code.

Definition generate_driver_2 (fe : Frontend) (preprocessed_file_path : string)
    (global_vars external_funcs : list string) : string :=
  if negb (path_exists fe preprocessed_file_path) then EmptyString
  else match index_parse fe preprocessed_file_path with
       | None => EmptyString
       | Some tu => join nl (driver_lines tu global_vars external_funcs)
       end.

End GenerateDriver2.

(** ** [preprocess_c_file.py]: the filter on the compile command *)

Module PreprocessCFile.

(** One iteration of [for i, arg in enumerate(args)]. *)
Definition keep_option (args : list string)
    (preprocessor_options : list string) (ia : nat * string) : list string :=
  let '(i, arg) := ia in
  if String.prefix "-I" arg || String.prefix "-D" arg || String.prefix "-U" arg
  then preprocessor_options ++ [arg]
  else if bool_decide (arg ∈ ["-isystem"; "-I"; "-include"; "-D"; "-U"])
          && bool_decide (i + 1 < length args)
  then match args !! (i + 1) with
       | Some next => (preprocessor_options ++ [arg]) ++ [next]
       | None => preprocessor_options
       end
  else preprocessor_options.

Definition preprocessor_options (args : list string) : list string :=
  fold_left (keep_option args) (imap pair args) [].

(** [['clang', '-E', '-P'] + preprocessor_options + [file_path]]. *)
Definition clang_command (args : list string) (file_path : string)
    : list string :=
  ["clang"; "-E"; "-P"] ++ preprocessor_options args ++ [file_path].

End PreprocessCFile.

(** ** [main.py]: its own copy of the filter *)

Module Main.

(** One iteration of [for i, arg in enumerate(args)]; only [-isystem]
    takes its following argument here. *)
Definition keep_option (args : list string)
    (preprocessor_options : list string) (ia : nat * string) : list string :=
  let '(i, arg) := ia in
  if String.prefix "-I" arg || String.prefix "-D" arg || String.prefix "-U" arg
  then preprocessor_options ++ [arg]
  else if bool_decide (arg ∈ ["-isystem"])
          && bool_decide (i + 1 < length args)
  then match args !! (i + 1) with
       | Some next => (preprocessor_options ++ [arg]) ++ [next]
       | None => preprocessor_options
       end
  else preprocessor_options.

Definition preprocessor_options (args : list string) : list string :=
  fold_left (keep_option args) (imap pair args) [].

Definition clang_command (args : list string) (file_path : string)
    : list string :=
  ["clang"; "-E"; "-P"] ++ preprocessor_options args ++ [file_path].

End Main.

(** ** [standalone_driver_gen.py]: the two functions that differ from
    their single-file counterparts *)

Module Standalone.

(** Classification of one cursor of a function body; the type of a
    global variable is not inspected. *)
Definition classify (function_names_set : gset string) (acc : Usage)
    (child : Cursor) : Usage :=
  if bool_decide (kind child = DECL_REF_EXPR) then
    let referenced := referenced child in
    if bool_decide (ref_kind referenced = VAR_DECL)
       && bool_decide (ref_semantic_parent_kind referenced = TRANSLATION_UNIT)
    then mkUsage (global_vars acc ∪ {[ ref_spelling referenced ]})
                 (external_funcs acc)
    else if bool_decide (ref_kind referenced = FUNCTION_DECL)
            && negb (ref_is_definition referenced)
            && bool_decide (ref_spelling referenced ∉ function_names_set)
    then mkUsage (global_vars acc)
                 (external_funcs acc ∪ {[ ref_spelling referenced ]})
    else acc
  else acc.

Definition usage_of (tu : Cursor) (function_names : list string) : Usage :=
  let function_names_set : gset string := list_to_set function_names in
  fold_left (λ acc func_cursor,
    if bool_decide (kind func_cursor = FUNCTION_DECL)
       && is_definition func_cursor
       && bool_decide (spelling func_cursor ∈ function_names_set)
    then fold_left (classify function_names_set)
                   (walk_preorder func_cursor) acc
    else acc) (walk_preorder tu) (mkUsage ∅ ∅).

Definition find_globals_and_externs (fe : Frontend)
    (preprocessed_file_path : string) (function_names : list string)
    : Usage :=
  if negb (path_exists fe preprocessed_file_path) then mkUsage ∅ ∅
  else match index_parse fe preprocessed_file_path with
       | None => mkUsage ∅ ∅
       | Some tu => usage_of tu function_names
       end.

(** One iteration of the loop that generates the stubs: the parameter
    loops and the return lines are those of [generate_driver_2.py]; the
    signature is built from [param_decls] as collected. *)
Definition emit_stub (external_funcs : list string)
    (driver_code : list string) (cursor : Cursor) : list string :=
  if bool_decide (kind cursor = FUNCTION_DECL)
     && bool_decide (spelling cursor ∈ external_funcs)
     && negb (is_definition cursor)
  then
    let '(param_decls, param_names, _) :=
      fold_left GenerateDriver2.collect_param (get_children cursor)
                ([], [], 0) in
    let driver_code :=
      driver_code ++ [GenerateDriver2.signature_line cursor param_decls] in
    let driver_code := driver_code ++ ["    randomize_all_global_vars();"] in
    let '(driver_code, _) :=
      fold_left GenerateDriver2.check_param (get_children cursor)
                (driver_code, 0) in
    let driver_code := GenerateDriver2.return_lines cursor driver_code in
    driver_code ++ ["}" +:+ nl]
  else driver_code.

Definition driver_lines (tu : Cursor) (global_vars external_funcs : list string)
    : list string :=
  let driver_code := GenerateDriver2.header in
  let driver_code := driver_code ++ ["void randomize_all_global_vars() {"] in
  let driver_code :=
    fold_left (GenerateDriver2.randomize_var tu) global_vars driver_code in
  let driver_code := driver_code ++ ["}" +:+ nl] in
  fold_left (emit_stub external_funcs) (walk_preorder tu) driver_code.

Definition generate_driver_2 (fe : Frontend) (preprocessed_file_path : string)
    (global_vars external_funcs : list string) : string :=
  if negb (path_exists fe preprocessed_file_path) then EmptyString
  else match index_parse fe preprocessed_file_path with
       | None => EmptyString
       | Some tu => join nl (driver_lines tu global_vars external_funcs)
       end.

End Standalone.

(** ** [main2.py]: steps 3 to 5 of [main] (the same text ends
    [standalone_driver_gen.py]) *)

Module Main2.

(** "Combine the two parts".  [None] is the [IndexError] raised by
    [driver_part2.split("int main() {")[1]] when the marker is absent. *)
Definition combine (c_file_basename driver_part1 driver_part2 : string)
    : option string :=
  let final_driver_code := "#include " +:+ dq +:+ c_file_basename +:+ dq +:+ nl in
  let final_driver_code := final_driver_code +:+ driver_part1 in
  match split "int main() {" driver_part2 !! 1 with
  | None => None
  | Some main_func_body =>
      let final_driver_code :=
        final_driver_code +:+ (nl +:+ "int main() {" +:+ nl) in
      let final_driver_code :=
        final_driver_code +:+ ("    randomize_all_global_vars();" +:+ nl) in
      Some (final_driver_code +:+ main_func_body)
  end.

(** Steps 3, 4 and 5.  The sets returned by the analyses are iterated in
    the order [elements] enumerates them. *)
Definition main (fe : Frontend) (c_file_basename : string)
    (preprocessed_file_path : string) (all_function_names : list string)
    : option string :=
  let results :=
    FindGlobalsAndExterns.find_globals_and_externs
      fe preprocessed_file_path all_function_names in
  let global_vars := global_vars results in
  let external_funcs := external_funcs results in
  let entrypoints :=
    FindEntrypoints.find_entrypoints
      fe preprocessed_file_path all_function_names in
  let driver_part1 :=
    GenerateDriver2.generate_driver_2
      fe preprocessed_file_path (elements global_vars)
      (elements external_funcs) in
  let driver_part2 :=
    GenerateDriver.generate_driver
      fe c_file_basename preprocessed_file_path (elements entrypoints) in
  combine c_file_basename driver_part1 driver_part2.

End Main2.

(** ** Concrete translation units

    The inputs of the scripts' own [__main__] tests and of the scenarios,
    as cursor trees. *)

Module Scenario.

Definition void_t : CType := mkCType "void" VOID false false None.
Definition int_t : CType := mkCType "int" INT false false None.
Definition char_t : CType := mkCType "char" CHAR_S false false None.
Definition const_int_t : CType := mkCType "const int" INT true false None.

Definition ptr_t (pointee : CType) : CType :=
  mkCType (ty_spelling pointee +:+ " *") POINTER false false (Some pointee).

Definition fn_t (spelling : string) (variadic : bool) : CType :=
  mkCType spelling FUNCTIONPROTO false variadic None.

(** The [referenced] attribute of a cursor that is not a reference. *)
Definition no_ref : Referenced :=
  mkReferenced UNEXPOSED_EXPR EmptyString false false UNEXPOSED_EXPR.

(** A call expression [name(...)] with the given argument cursors. *)
Definition call (name : string) (args : list Cursor) : Cursor :=
  mkCursor CALL_EXPR name false int_t int_t no_ref args.

(** A reference to the file-scope variable [name]. *)
Definition global_ref (name : string) (t : CType) : Cursor :=
  mkCursor DECL_REF_EXPR name false t t
    (mkReferenced VAR_DECL name true (is_const_qualified t) TRANSLATION_UNIT)
    [].

(** A reference to the function [name], resolved to a declaration that
    is a definition or not. *)
Definition function_ref (name : string) (defined : bool) : Cursor :=
  mkCursor DECL_REF_EXPR name false (fn_t "void ()" false) void_t
    (mkReferenced FUNCTION_DECL name defined false TRANSLATION_UNIT) [].

Definition compound (stmts : list Cursor) : Cursor :=
  mkCursor COMPOUND_STMT EmptyString false void_t void_t no_ref stmts.

Definition parm (t : CType) (name : string) : Cursor :=
  mkCursor PARM_DECL name true t void_t no_ref [].

Definition var_decl (t : CType) (name : string) : Cursor :=
  mkCursor VAR_DECL name true t void_t no_ref [].

Definition fn_def (ret : CType) (name : string) (ps stmts : list Cursor)
    : Cursor :=
  mkCursor FUNCTION_DECL name true (fn_t "fn" false) ret no_ref
    (ps ++ [compound stmts]).

Definition fn_decl (ret : CType) (name : string) (variadic : bool)
    (ps : list Cursor) : Cursor :=
  mkCursor FUNCTION_DECL name false (fn_t "fn" variadic) ret no_ref ps.

Definition unit (decls : list Cursor) : Cursor :=
  mkCursor TRANSLATION_UNIT "preprocessed_test.c" false void_t void_t
    no_ref decls.

(** A front end under which exactly [path] exists and parses to [tu]. *)
Definition parsed (path : string) (tu : Cursor) : Frontend :=
  mkFrontend (λ p, bool_decide (p = path))
             (λ p, if bool_decide (p = path) then Some tu else None).

(** A front end under which no path exists. *)
Definition missing : Frontend := mkFrontend (λ _, false) (λ _, None).

Definition path : string := "preprocessed_test.c".

(** The test input of [find_entrypoints.py] (scenarios A and B). *)
Definition calls_unit : Cursor :=
  unit [ fn_def void_t "bar" [] [];
         fn_def void_t "foo" [] [call "bar" [function_ref "bar" true]];
         fn_def void_t "main" [] [call "foo" [function_ref "foo" true]];
         fn_def void_t "standalone" [] [];
         fn_def void_t "baz" []
           [call "standalone" [function_ref "standalone" true]] ].

Definition calls_names : list string :=
  ["main"; "foo"; "bar"; "standalone"; "baz"].

(** [void f() { f(); }]. *)
Definition recursive_unit : Cursor :=
  unit [ fn_def void_t "f" [] [call "f" [function_ref "f" true]] ].

(** Three functions calling each other in a cycle. *)
Definition cycle_unit : Cursor :=
  unit [ fn_def void_t "a" [] [call "b" []];
         fn_def void_t "b" [] [call "c" []];
         fn_def void_t "c" [] [call "a" []] ].

(** [void main() { foo(); another_global = global_var; }]. *)
Definition globals_main : Cursor :=
  fn_def void_t "main" []
    [call "foo" [function_ref "foo" true];
     global_ref "another_global" int_t;
     global_ref "global_var" int_t].

(** The test input of [find_globals_and_externs.py] (scenario C). *)
Definition globals_unit : Cursor :=
  unit [ var_decl int_t "global_var";
         var_decl int_t "another_global";
         var_decl const_int_t "const_global";
         fn_decl void_t "external_func" false [];
         fn_def void_t "bar" []
           [global_ref "global_var" int_t;
            global_ref "const_global" const_int_t];
         fn_def void_t "foo" []
           [call "bar" [function_ref "bar" true];
            call "external_func" [function_ref "external_func" false]];
         globals_main ].

Definition globals_names : list string := ["main"; "foo"; "bar"].

(** The test input of [generate_driver.py] (scenario E). *)
Definition params_unit : Cursor :=
  unit [ fn_def void_t "takes_ptr"
           [parm (ptr_t int_t) "a"; parm (ptr_t char_t) "b"] [];
         fn_def void_t "takes_value" [parm int_t "x"] [];
         fn_def void_t "no_args" [] [] ].

(** [void f(int arg_1, int) {}]. *)
Definition clash_f : Cursor :=
  fn_def void_t "f" [parm int_t "arg_1"; parm int_t EmptyString] [].

Definition clash_unit : Cursor := unit [ clash_f ].

(** [int my_printf(char* fmt, int i, ...);]. *)
Definition my_printf_decl : Cursor :=
  fn_decl int_t "my_printf" true
    [parm (ptr_t char_t) "fmt"; parm int_t "i"].

(** The test input of [generate_driver_2.py]. *)
Definition stubs_unit : Cursor :=
  unit [ var_decl int_t "global_var1";
         var_decl char_t "global_var2";
         fn_decl void_t "external_func1" false
           [parm (ptr_t int_t) "p1"; parm int_t "a"];
         fn_decl (ptr_t int_t) "external_func2" false [];
         fn_decl void_t "external_func3" false [];
         fn_decl (ptr_t char_t) "external_func4" false
           [parm (ptr_t char_t) "s"];
         my_printf_decl ].

(** A unit for the whole pipeline (scenario D):
    [int g; void ext(int *p, int); void helper(void) { ext(&g, 1); }
     void entry(int *a, char b) { helper(); }]. *)
Definition pipeline_unit : Cursor :=
  unit [ var_decl int_t "g";
         fn_decl void_t "ext" false
           [parm (ptr_t int_t) "p"; parm int_t EmptyString];
         fn_def void_t "helper" []
           [call "ext" [function_ref "ext" false; global_ref "g" int_t]];
         fn_def void_t "entry" [parm (ptr_t int_t) "a"; parm char_t "b"]
           [call "helper" [function_ref "helper" true]] ].

Definition pipeline_names : list string := ["helper"; "entry"].

(** For a non-empty [F], one definition named after the head of [F]
    that calls every name of [F]; for an empty [F], an empty unit. *)
Definition saturating_unit (F : list string) : Cursor :=
  match F with
  | [] => unit []
  | f :: _ =>
      unit [ mkCursor FUNCTION_DECL f true (fn_t "fn" false) void_t no_ref
               (map (λ n, call n []) F) ]
  end.

End Scenario.

(** ** Vocabulary of the statements *)

(** A call expression targeting [n] occurs somewhere inside [cursor]. *)
Definition calls_within (cursor : Cursor) (n : string) : Prop :=
  ∃ child, child ∈ walk_preorder cursor ∧ kind child = CALL_EXPR
           ∧ spelling child = n.

(** [cursor] is a function definition of the unit whose name is analysed. *)
Definition analysed_definition (tu : Cursor) (F : list string)
    (cursor : Cursor) : Prop :=
  cursor ∈ walk_preorder tu ∧ kind cursor = FUNCTION_DECL
  ∧ is_definition cursor = true ∧ spelling cursor ∈ F.

(** [n] is a one-hop callee within [F]. *)
Definition one_hop_callee (tu : Cursor) (F : list string) (n : string)
    : Prop :=
  n ∈ F ∧ ∃ cursor, analysed_definition tu F cursor ∧ calls_within cursor n.

(** [n] is called by an analysed definition of a different name. *)
Definition called_by_another (tu : Cursor) (F : list string) (n : string)
    : Prop :=
  ∃ cursor, analysed_definition tu F cursor ∧ spelling cursor ≠ n
            ∧ calls_within cursor n.

(** [child] is a reference that resolves to a file-scope variable named
    [n]; with [nonconst] the variable's type is moreover not
    const-qualified. *)
Definition global_reference (nonconst : bool) (child : Cursor) (n : string)
    : Prop :=
  kind child = DECL_REF_EXPR
  ∧ ref_kind (referenced child) = VAR_DECL
  ∧ ref_semantic_parent_kind (referenced child) = TRANSLATION_UNIT
  ∧ (nonconst = true → ref_is_const_qualified (referenced child) = false)
  ∧ ref_spelling (referenced child) = n.

(** [child] is a reference that resolves to a function declaration named
    [n] that is not a definition, [n] being outside [S]. *)
Definition external_reference (S : gset string) (child : Cursor) (n : string)
    : Prop :=
  kind child = DECL_REF_EXPR
  ∧ ref_kind (referenced child) = FUNCTION_DECL
  ∧ ref_is_definition (referenced child) = false
  ∧ (ref_spelling (referenced child) ∉ S)
  ∧ ref_spelling (referenced child) = n.

(** The front end's guarantee for C's ordinary identifiers: within one
    unit no name is resolved both to a file-scope variable and to a
    function. *)
Definition ordinary_identifiers_unambiguous (tu : Cursor) : Prop :=
  ∀ c1 c2, c1 ∈ walk_preorder tu → c2 ∈ walk_preorder tu →
    kind c1 = DECL_REF_EXPR → kind c2 = DECL_REF_EXPR →
    ref_kind (referenced c1) = VAR_DECL →
    ref_semantic_parent_kind (referenced c1) = TRANSLATION_UNIT →
    ref_kind (referenced c2) = FUNCTION_DECL →
    ref_spelling (referenced c1) ≠ ref_spelling (referenced c2).

(** The test of the outer loop of the usage analysis. *)
Definition analysed (S : gset string) (func_cursor : Cursor) : bool :=
  bool_decide (kind func_cursor = FUNCTION_DECL)
  && is_definition func_cursor
  && bool_decide (spelling func_cursor ∈ S).

(** The name the entrypoint-call generator uses for the parameter at
    position [i]. *)
Definition arg_name_at (i : nat) (param : Cursor) : string :=
  str_or (spelling param) ("arg_" +:+ pretty i).

(** The names used in the block of [func_cursor], in declaration order. *)
Definition block_arg_names (func_cursor : Cursor) : list string :=
  imap arg_name_at (GenerateDriver.params func_cursor).

(** The declaration of a parameter and its unconstrained-fill request. *)
Definition param_lines (arg_name : string) (param : Cursor) : list string :=
  [ "        " +:+ ty_spelling (type param) +:+ " " +:+ arg_name +:+ ";";
    if bool_decide (ty_kind (type param) = POINTER)
    then "        make_unknown(&" +:+ arg_name +:+ ", max(16, sizeof(*"
           +:+ arg_name +:+ ")));"
    else "        make_unknown(&" +:+ arg_name +:+ ", sizeof("
           +:+ arg_name +:+ "));" ].

(** The block of an entrypoint whose definition is [func_cursor]: one
    pair of lines per parameter in declaration order, then one call. *)
Definition block_of (entrypoint : string) (func_cursor : Cursor)
    : list string :=
  ["    {"]
  ++ concat (imap (λ i param, param_lines (arg_name_at i param) param)
                  (GenerateDriver.params func_cursor))
  ++ ["        " +:+ entrypoint +:+ "("
        +:+ join ", " (block_arg_names func_cursor) +:+ ");";
      "    }"].

(** The lines emitted for one requested entrypoint. *)
Definition entry_lines (decls : gmap string Cursor) (entrypoint : string)
    : list string :=
  match decls !! entrypoint with
  | Some func_cursor => block_of entrypoint func_cursor
  | None =>
      ["    // Warning: Could not find definition for entrypoint '"
         +:+ entrypoint +:+ "'. Skipping."]
  end.

(** The name the environment-stub generator uses for the parameter at
    position [i]. *)
Definition stub_param_name (i : nat) (param : Cursor) : string :=
  str_or (spelling param) ("arg" +:+ pretty i).

(** The parameter declarations of the stub for [cursor]: type spelling
    and name of every [PARM_DECL] child, in order. *)
Definition stub_param_decls (cursor : Cursor) : list string :=
  imap (λ i param,
          ty_spelling (type param) +:+ " " +:+ stub_param_name i param)
       (filter (λ c, kind c = PARM_DECL) (get_children cursor)).

(** The declared function type is variadic. *)
Definition declared_variadic (cursor : Cursor) : bool :=
  bool_decide (ty_kind (type cursor) = FUNCTIONPROTO)
  && is_function_variadic (type cursor).

(** The test of the loop that generates the stubs. *)
Definition needs_stub (external_funcs : list string) (cursor : Cursor)
    : bool :=
  bool_decide (kind cursor = FUNCTION_DECL)
  && bool_decide (spelling cursor ∈ external_funcs)
  && negb (is_definition cursor).

(** The statements of a stub that follow the call to
    [randomize_all_global_vars], and its closing line. *)
Definition stub_rest (cursor : Cursor) : list string :=
  fst (fold_left GenerateDriver2.check_param (get_children cursor) ([], 0))
  ++ GenerateDriver2.return_lines cursor []
  ++ ["}" +:+ nl].

(** The stub of [generate_driver_2.py] for [cursor]. *)
Definition stub_of (cursor : Cursor) : list string :=
  [ ty_spelling (result_type cursor) +:+ " " +:+ spelling cursor +:+ "("
      +:+ join ", " (stub_param_decls cursor
                     ++ (if declared_variadic cursor
                         then match stub_param_decls cursor with
                              | [] => ["void, ..."]
                              | _ :: _ => ["..."]
                              end
                         else []))
      +:+ ") {";
    "    randomize_all_global_vars();" ]
  ++ stub_rest cursor.

(** The stub of [standalone_driver_gen.py] for [cursor]. *)
Definition standalone_stub_of (cursor : Cursor) : list string :=
  [ ty_spelling (result_type cursor) +:+ " " +:+ spelling cursor +:+ "("
      +:+ join ", " (stub_param_decls cursor) +:+ ") {";
    "    randomize_all_global_vars();" ]
  ++ stub_rest cursor.

(** The lines that precede the stubs. *)
Definition stubs_preamble (tu : Cursor) (global_vars : list string)
    : list string :=
  fold_left (GenerateDriver2.randomize_var tu) global_vars
    (GenerateDriver2.header ++ ["void randomize_all_global_vars() {"])
  ++ ["}" +:+ nl].

(** The marker [main2.py] splits the entrypoint-call driver at. *)
Definition main_marker : string := "int main() {".

(** The text of the entrypoint-call driver up to the marker. *)
Definition driver_preface (c_file_name : string) : string :=
  join nl (take 5 (GenerateDriver.header c_file_name)) +:+ nl.

(** The text of the entrypoint-call driver after the marker: the blocks
    of the entrypoints and the two closing lines. *)
Definition main_body (decls : gmap string Cursor) (entrypoints : list string)
    : string :=
  nl +:+ join nl (concat (map (entry_lines decls) entrypoints)
                  ++ ["    return 0;"; "}"]).


(** The flag starts with [-I], [-D] or [-U]. *)
Definition starts_with_IDU (arg : string) : bool :=
  String.prefix "-I" arg || String.prefix "-D" arg || String.prefix "-U" arg.

(** The token is [-isystem] or [-include]. *)
Definition takes_next_argument (arg : string) : bool :=
  bool_decide (arg ∈ ["-isystem"; "-include"]).

(** The flags kept from a compile command, as the description of the
    filter has them: every flag starting with [-I], [-D] or [-U]; every
    other [-isystem] or [-include] token that has a following argument,
    with that argument; nothing else. *)
Fixpoint kept_options (args : list string) : list string :=
  match args with
  | [] => []
  | arg :: rest =>
      (if starts_with_IDU arg then [arg]
       else if takes_next_argument arg
       then match rest with
            | next :: _ => [arg; next]
            | [] => []
            end
       else [])
      ++ kept_options rest
  end.

(** [caller] is the name of an analysed definition whose body calls the
    analysed name [callee]: an edge of the call graph restricted to [F]. *)
Definition calls_edge (tu : Cursor) (F : list string) (caller callee : string)
    : Prop :=
  callee ∈ F
  ∧ ∃ cursor, analysed_definition tu F cursor ∧ spelling cursor = caller
              ∧ calls_within cursor callee.

(** A certificate that the restricted call graph has no cycle: every call
    from an analysed definition to an analysed name goes to a strictly
    greater rank. *)
Definition ranked_calls (tu : Cursor) (F : list string) (rank : string → nat)
    : Prop :=
  Forall (λ cursor,
    kind cursor = FUNCTION_DECL → is_definition cursor = true →
    spelling cursor ∈ F →
    Forall (λ child,
      kind child = CALL_EXPR → spelling child ∈ F →
      rank (spelling cursor) < rank (spelling child))
      (walk_preorder cursor))
    (walk_preorder tu).

#[global] Instance ranked_calls_dec (tu : Cursor) (F : list string)
    (rank : string → nat) : Decision (ranked_calls tu F rank).
Proof. unfold ranked_calls. apply _. Defined.

(** A rank for the test input of [find_entrypoints.py]. *)
Definition calls_rank (name : string) : nat :=
  if bool_decide (name ∈ ["main"; "baz"]) then 0
  else if bool_decide (name ∈ ["foo"; "standalone"]) then 1
  else 2.

(** [cursor] is a function definition named [name]. *)
Definition definition_named (name : string) (cursor : Cursor) : Prop :=
  kind cursor = FUNCTION_DECL ∧ is_definition cursor = true
  ∧ spelling cursor = name.

#[global] Instance definition_named_dec (name : string) (cursor : Cursor) :
  Decision (definition_named name cursor).
Proof. unfold definition_named. apply _. Defined.

(** The unit declares a variable, at any scope, spelled [var_name]: the
    test of the inner search of the randomize loop. *)
Definition declared_variable (tu : Cursor) (var_name : string) : bool :=
  existsb (λ cursor, bool_decide (kind cursor = VAR_DECL)
                     && bool_decide (spelling cursor = var_name))
          (walk_preorder tu).

(** The statements a stub makes for the parameter at position [i]. *)
Definition check_lines (i : nat) (param : Cursor) : list string :=
  ["    check_initialized(" +:+ stub_param_name i param +:+ ");"]
  ++ (if bool_decide (ty_kind (type param) = POINTER)
      then ["    check_initialized(*" +:+ stub_param_name i param +:+ ");"]
           ++ (if GenerateDriver2.pointee_is_const_qualified (type param)
               then []
               else ["    make_unknown(" +:+ stub_param_name i param
                       +:+ ", sizeof(*" +:+ stub_param_name i param
                       +:+ "));"])
      else []).

(** The statements a stub makes for its result. *)
Definition result_lines (cursor : Cursor) : list string :=
  match ty_kind (result_type cursor) with
  | VOID => []
  | POINTER =>
      [ "    " +:+ ty_spelling (result_type cursor) +:+ " out = ("
          +:+ ty_spelling (result_type cursor) +:+ ")alloc_safe(sizeof("
          +:+ GenerateDriver2.pointee_spelling (result_type cursor) +:+ "));";
        "    make_unknown(out, sizeof(*out));";
        "    return out;" ]
  | _ =>
      [ "    " +:+ ty_spelling (result_type cursor) +:+ " out;";
        "    make_unknown(&out, sizeof(out));";
        "    return out;" ]
  end.

(** [void ext(int *p, int);], as declared in [Scenario.pipeline_unit]. *)
Definition ext_decl : Cursor :=
  Scenario.fn_decl Scenario.void_t "ext" false
    [ Scenario.parm (Scenario.ptr_t Scenario.int_t) "p";
      Scenario.parm Scenario.int_t EmptyString ].

(** [void takes_ptr(int *a, char *b) {}], as defined in
    [Scenario.params_unit]. *)
Definition takes_ptr_def : Cursor :=
  Scenario.fn_def Scenario.void_t "takes_ptr"
    [ Scenario.parm (Scenario.ptr_t Scenario.int_t) "a";
      Scenario.parm (Scenario.ptr_t Scenario.char_t) "b" ] [].

(** The flags kept by the copy of the filter in [main.py]: every flag
    starting with [-I], [-D] or [-U]; every other [-isystem] token that
    has a following argument, with that argument; nothing else. *)
Fixpoint main_kept_options (args : list string) : list string :=
  match args with
  | [] => []
  | arg :: rest =>
      (if starts_with_IDU arg then [arg]
       else if bool_decide (arg ∈ ["-isystem"])
       then match rest with
            | next :: _ => [arg; next]
            | [] => []
            end
       else [])
      ++ main_kept_options rest
  end.

(** A unit in which the name [x] is resolved both to a file-scope
    variable and to a function that is not defined:
    [int x; void x(); void f() { x = 1; x(); }] as a cursor tree. *)
Definition overlap_unit : Cursor :=
  Scenario.unit
    [ Scenario.var_decl Scenario.int_t "x";
      Scenario.fn_decl Scenario.void_t "x" false [];
      Scenario.fn_def Scenario.void_t "f" []
        [ Scenario.global_ref "x" Scenario.int_t;
          Scenario.call "x" [Scenario.function_ref "x" false] ] ].

(** * Properties *)

(** ** Entrypoint detection *)

Section EntrypointFacts.

Import FindEntrypoints.

Lemma scan_calls_list (F : list string) (l : list Cursor) (acc : gset string)
    (n : string) :
  n ∈ fold_left (λ callees child,
        if bool_decide (kind child = CALL_EXPR) then
          let callee_name := spelling child in
          if bool_decide (callee_name ∈ F)
          then callees ∪ {[ callee_name ]}
          else callees
        else callees) l acc
  ↔ n ∈ acc ∨ (n ∈ F ∧ ∃ child, child ∈ l ∧ kind child = CALL_EXPR
                                 ∧ spelling child = n).
Proof.
  revert acc. induction l as [|c l IH]; intros acc; simpl.
  - split; [by left|]. intros [?|(_ & c & Hc & _)]; [done|]. by inversion Hc.
  - rewrite IH. clear IH. split.
    + intros [Hacc|(HF & c' & Hin & Hk & Hs)].
      * repeat case_bool_decide; simpl in Hacc; try (by left).
        apply elem_of_union in Hacc as [?|Heq%elem_of_singleton]; [by left|].
        right. subst n. split; [done|]. exists c. by rewrite elem_of_cons; auto.
      * right. split; [done|]. exists c'. rewrite elem_of_cons. auto.
    + intros [Hacc|(HF & c' & Hin & Hk & Hs)].
      * left. repeat case_bool_decide; simpl; set_solver.
      * apply elem_of_cons in Hin as [->|Hin].
        -- left. rewrite bool_decide_eq_true_2 by done. simpl. subst n.
           rewrite bool_decide_eq_true_2 by done. set_solver.
        -- right. split; [done|]. by exists c'.
Qed.

Lemma scan_calls_spec (F : list string) (acc : gset string) (cursor : Cursor)
    (n : string) :
  n ∈ scan_calls F acc cursor ↔ n ∈ acc ∨ (n ∈ F ∧ calls_within cursor n).
Proof. apply scan_calls_list. Qed.

Lemma collect_callees_list (F : list string) (l : list Cursor)
    (acc : gset string) (n : string) :
  n ∈ fold_left (λ callees cursor,
        if bool_decide (kind cursor = FUNCTION_DECL) && is_definition cursor
        then
          let caller_name := spelling cursor in
          if bool_decide (caller_name ∈ F)
          then scan_calls F callees cursor
          else callees
        else callees) l acc
  ↔ n ∈ acc ∨ (n ∈ F ∧ ∃ cursor, cursor ∈ l ∧ kind cursor = FUNCTION_DECL
                 ∧ is_definition cursor = true ∧ spelling cursor ∈ F
                 ∧ calls_within cursor n).
Proof.
  revert acc. induction l as [|c l IH]; intros acc; simpl.
  - split; [by left|]. intros [?|(_ & c & Hc & _)]; [done|]. by inversion Hc.
  - rewrite IH. clear IH. split.
    + intros [Hacc|(HF & c' & Hin & Hrest)].
      * destruct (bool_decide (kind c = FUNCTION_DECL)) eqn:Hk; simpl in Hacc;
          [|by left].
        destruct (is_definition c) eqn:Hd; simpl in Hacc; [|by left].
        case_bool_decide as HcF; simpl in Hacc; [|by left].
        apply scan_calls_spec in Hacc as [?|[HF Hcalls]]; [by left|].
        right. split; [done|]. exists c.
        apply bool_decide_eq_true_1 in Hk. rewrite elem_of_cons. auto.
      * right. split; [done|]. exists c'. rewrite elem_of_cons. tauto.
    + intros [Hacc|(HF & c' & Hin & Hk & Hd & HcF & Hcalls)].
      * left. destruct (bool_decide (kind c = FUNCTION_DECL) && is_definition c);
          [|done].
        simpl. case_bool_decide; [|done]. apply scan_calls_spec. by left.
      * apply elem_of_cons in Hin as [->|Hin].
        -- left. rewrite bool_decide_eq_true_2 by done. rewrite Hd. simpl.
           rewrite bool_decide_eq_true_2 by done. apply scan_calls_spec. auto.
        -- right. split; [done|]. exists c'. auto.
Qed.

Lemma collect_callees_spec (tu : Cursor) (F : list string) (n : string) :
  n ∈ collect_callees tu F ↔ one_hop_callee tu F n.
Proof.
  unfold collect_callees. rewrite collect_callees_list.
  unfold one_hop_callee, analysed_definition. split.
  - intros [Hn|(HF & c & ?)]; [set_solver|]. split; [done|]. exists c. tauto.
  - intros (HF & c & ?). right. split; [done|]. exists c. tauto.
Qed.

Lemma entrypoints_of_spec (tu : Cursor) (F : list string) (n : string) :
  n ∈ entrypoints_of tu F ↔ n ∈ F ∧ ¬ one_hop_callee tu F n.
Proof.
  unfold entrypoints_of. simpl.
  rewrite elem_of_difference, elem_of_list_to_set, collect_callees_spec. done.
Qed.


(** The entrypoint set is contained in the analysed names. *)
Lemma entrypoints_of_subset (tu : Cursor) (F : list string) (n : string) :
  n ∈ FindEntrypoints.entrypoints_of tu F → n ∈ F.
Proof. rewrite entrypoints_of_spec. tauto. Qed.

(** The entrypoint set is empty exactly when every analysed name is a
    one-hop callee, the caller being possibly the function itself. *)
Lemma entrypoints_of_empty (tu : Cursor) (F : list string) :
  FindEntrypoints.entrypoints_of tu F = ∅
  ↔ ∀ n, n ∈ F → one_hop_callee tu F n.
Proof.
  split.
  - intros He n Hn.
    destruct (decide (n ∈ FindEntrypoints.collect_callees tu F)) as [Hc|Hc].
    + by apply collect_callees_spec.
    + assert (n ∈ FindEntrypoints.entrypoints_of tu F) as Hin.
      { apply entrypoints_of_spec. split; [done|].
        by rewrite <- collect_callees_spec. }
      rewrite He in Hin. set_solver.
  - intros Hall. apply set_eq. intros n. rewrite entrypoints_of_spec.
    split; [|set_solver]. intros [Hn Hnot]. destruct Hnot. by apply Hall.
Qed.

Lemma find_entrypoints_parsed (fe : Frontend) (p : string) (tu : Cursor)
    (F : list string) :
  path_exists fe p = true → index_parse fe p = Some tu →
  FindEntrypoints.find_entrypoints fe p F = FindEntrypoints.entrypoints_of tu F.
Proof.
  intros He Hp. unfold FindEntrypoints.find_entrypoints. by rewrite He, Hp.
Qed.

(** C1.  Once the unit is parsed, a name is an entrypoint exactly when it
    is analysed and is not a one-hop callee within the analysed names; in
    particular an analysed definition whose body calls the function
    itself is never an entrypoint.  No closure is taken: the set is the
    plain difference. *)
Theorem find_entrypoints_one_hop (fe : Frontend) (p : string) (tu : Cursor)
    (F : list string) :
  path_exists fe p = true →
  index_parse fe p = Some tu →
  (∀ n, n ∈ FindEntrypoints.find_entrypoints fe p F
        ↔ n ∈ F ∧ ¬ one_hop_callee tu F n)
  ∧ (∀ cursor, analysed_definition tu F cursor →
        calls_within cursor (spelling cursor) →
        spelling cursor ∉ FindEntrypoints.find_entrypoints fe p F)
  ∧ FindEntrypoints.find_entrypoints fe p F
    = list_to_set F ∖ FindEntrypoints.collect_callees tu F.
Proof.
  intros He Hp. rewrite (find_entrypoints_parsed fe p tu F He Hp).
  split; [|split].
  - intros n. apply entrypoints_of_spec.
  - intros cursor Hdef Hself. rewrite entrypoints_of_spec.
    intros [HF Hnot]. apply Hnot. split; [done|]. by exists cursor.
  - reflexivity.
Qed.

Lemma find_entrypoints_one_hop_witness :
  path_exists (Scenario.parsed Scenario.path Scenario.recursive_unit)
    Scenario.path = true
  ∧ index_parse (Scenario.parsed Scenario.path Scenario.recursive_unit)
      Scenario.path = Some Scenario.recursive_unit
  ∧ ((∀ n, n ∈ FindEntrypoints.find_entrypoints
               (Scenario.parsed Scenario.path Scenario.recursive_unit)
               Scenario.path ["f"]
          ↔ n ∈ ["f"] ∧ ¬ one_hop_callee Scenario.recursive_unit ["f"] n)
     ∧ (∀ cursor, analysed_definition Scenario.recursive_unit ["f"] cursor →
          calls_within cursor (spelling cursor) →
          spelling cursor ∉ FindEntrypoints.find_entrypoints
            (Scenario.parsed Scenario.path Scenario.recursive_unit)
            Scenario.path ["f"])
     ∧ FindEntrypoints.find_entrypoints
         (Scenario.parsed Scenario.path Scenario.recursive_unit)
         Scenario.path ["f"]
       = list_to_set ["f"]
         ∖ FindEntrypoints.collect_callees Scenario.recursive_unit ["f"]).
Proof.
  split; [reflexivity|]. split; [reflexivity|].
  apply (find_entrypoints_one_hop
           (Scenario.parsed Scenario.path Scenario.recursive_unit)
           Scenario.path Scenario.recursive_unit ["f"]); reflexivity.
Defined.

(** Scenarios A and B. *)
Example scenario_main_and_baz :
  FindEntrypoints.find_entrypoints
    (Scenario.parsed Scenario.path Scenario.calls_unit)
    Scenario.path Scenario.calls_names = {[ "main"; "baz" ]}.
Proof. vm_compute. reflexivity. Qed.

(** A cycle of three functions leaves no entrypoint. *)
Example cycle_has_no_entrypoint :
  FindEntrypoints.find_entrypoints
    (Scenario.parsed Scenario.path Scenario.cycle_unit)
    Scenario.path ["a"; "b"; "c"] = ∅.
Proof. vm_compute. reflexivity. Qed.

(** On [void f() { f(); }] with [f] the only analysed name the
    entrypoint set is empty, although no analysed function other than
    [f] itself calls [f]. *)
Example self_recursion_empties_entrypoints :
  FindEntrypoints.find_entrypoints
    (Scenario.parsed Scenario.path Scenario.recursive_unit)
    Scenario.path ["f"] = ∅
  ∧ "f" ∈ ["f"]
  ∧ ¬ called_by_another Scenario.recursive_unit ["f"] "f".
Proof.
  split; [by vm_compute|]. split; [set_solver|].
  intros (cursor & (_ & _ & _ & HF) & Hne & _).
  apply list_elem_of_singleton in HF. done.
Qed.

(** C6, as stated, fails on [void f() { f(); }]: the entrypoint set is
    empty and yet [f] is not called by another analysed function. *)
Lemma empty_without_another_caller :
  ¬ (FindEntrypoints.find_entrypoints
       (Scenario.parsed Scenario.path Scenario.recursive_unit)
       Scenario.path ["f"] = ∅ →
     ∀ n, n ∈ ["f"] → called_by_another Scenario.recursive_unit ["f"] n).
Proof.
  intros Hclaim.
  destruct self_recursion_empties_entrypoints as (Hempty & Hin & Hnot).
  apply Hnot. by apply Hclaim.
Qed.

(** C6, amended.  Once the unit is parsed, the entrypoint set is
    contained in the analysed names, and it is empty exactly when every
    analysed name is called from the body of an analysed definition of
    the unit, which may be the definition of that very name. *)
Theorem entrypoints_subset_and_empty (fe : Frontend) (p : string)
    (tu : Cursor) (F : list string) :
  path_exists fe p = true →
  index_parse fe p = Some tu →
  (∀ n, n ∈ FindEntrypoints.find_entrypoints fe p F → n ∈ F)
  ∧ (FindEntrypoints.find_entrypoints fe p F = ∅
     ↔ ∀ n, n ∈ F → one_hop_callee tu F n).
Proof.
  intros He Hp. rewrite (find_entrypoints_parsed fe p tu F He Hp).
  split; [apply entrypoints_of_subset|apply entrypoints_of_empty].
Qed.

Lemma entrypoints_subset_and_empty_witness :
  path_exists (Scenario.parsed Scenario.path Scenario.cycle_unit)
    Scenario.path = true
  ∧ index_parse (Scenario.parsed Scenario.path Scenario.cycle_unit)
      Scenario.path = Some Scenario.cycle_unit
  ∧ (∀ n, n ∈ FindEntrypoints.find_entrypoints
              (Scenario.parsed Scenario.path Scenario.cycle_unit)
              Scenario.path ["a"; "b"; "c"] → n ∈ ["a"; "b"; "c"])
  ∧ (FindEntrypoints.find_entrypoints
       (Scenario.parsed Scenario.path Scenario.cycle_unit)
       Scenario.path ["a"; "b"; "c"] = ∅
     ↔ ∀ n, n ∈ ["a"; "b"; "c"] →
            one_hop_callee Scenario.cycle_unit ["a"; "b"; "c"] n).
Proof.
  split; [reflexivity|]. split; [reflexivity|].
  apply (entrypoints_subset_and_empty
           (Scenario.parsed Scenario.path Scenario.cycle_unit)
           Scenario.path Scenario.cycle_unit ["a"; "b"; "c"]); reflexivity.
Defined.

End EntrypointFacts.

(** ** The pre-order walk *)

Lemma Cursor_children_ind (P : Cursor → Prop) :
  (∀ k s d t r rf children,
      Forall P children → P (mkCursor k s d t r rf children)) →
  ∀ c, P c.
Proof.
  intros step. fix IH 1. intros [k s d t r rf children]. apply step.
  induction children as [|c children IHchildren]; constructor.
  - apply IH.
  - apply IHchildren.
Qed.

Lemma walk_preorder_self (c : Cursor) : c ∈ walk_preorder c.
Proof. destruct c. simpl. apply elem_of_cons. by left. Qed.

Lemma walk_preorder_unfold (c : Cursor) :
  walk_preorder c = c :: flat_map walk_preorder (get_children c).
Proof. by destruct c. Qed.

Lemma elem_of_flat_map_walk (a : Cursor) (l : list Cursor) :
  a ∈ flat_map walk_preorder l ↔ ∃ c, c ∈ l ∧ a ∈ walk_preorder c.
Proof.
  rewrite list_elem_of_In, in_flat_map. split.
  - intros (c & Hc & Ha). exists c. by rewrite !list_elem_of_In.
  - intros (c & Hc & Ha). exists c. by rewrite <- !list_elem_of_In.
Qed.

(** A cursor met while walking a sub-tree is met while walking the tree. *)
Lemma walk_preorder_trans (c b a : Cursor) :
  b ∈ walk_preorder c → a ∈ walk_preorder b → a ∈ walk_preorder c.
Proof.
  revert b a. induction c as [k s d t r rf children IH]
    using Cursor_children_ind.
  intros b a Hb Ha. simpl in Hb. apply elem_of_cons in Hb as [->|Hb]; [done|].
  simpl. apply elem_of_cons. right.
  apply elem_of_flat_map_walk in Hb as (c & Hc & Hb).
  apply elem_of_flat_map_walk. exists c. split; [done|].
  rewrite Forall_forall in IH. by apply (IH c Hc b a).
Qed.

(** ** Usage analysis *)

(** Membership in one of the two result sets after a loop whose step adds
    [n] precisely for the cursors satisfying [P]. *)
Section FoldMembership.

Context (proj : Usage → gset string) (step : Usage → Cursor → Usage).
Context (P : Cursor → string → Prop).
Hypothesis step_spec : ∀ acc child n,
  n ∈ proj (step acc child) ↔ n ∈ proj acc ∨ P child n.

Lemma fold_step_spec (l : list Cursor) (acc : Usage) (n : string) :
  n ∈ proj (fold_left step l acc)
  ↔ n ∈ proj acc ∨ ∃ child, child ∈ l ∧ P child n.
Proof.
  revert acc. induction l as [|c l IH]; intros acc; simpl.
  - split; [by left|]. intros [?|(c & Hc & _)]; [done|]. by inversion Hc.
  - rewrite IH, step_spec. split.
    + intros [[?|?]|(c' & Hc' & HP)].
      * by left.
      * right. exists c. split; [apply elem_of_cons; by left|done].
      * right. exists c'. split; [apply elem_of_cons; by right|done].
    + intros [?|(c' & Hc' & HP)]; [by left; left|].
      apply elem_of_cons in Hc' as [->|Hc'].
      * left. by right.
      * right. by exists c'.
Qed.

Context (cond : Cursor → bool).

Lemma fold_outer_spec (l : list Cursor) (acc : Usage) (n : string) :
  n ∈ proj (fold_left (λ acc func_cursor,
              if cond func_cursor
              then fold_left step (walk_preorder func_cursor) acc
              else acc) l acc)
  ↔ n ∈ proj acc
    ∨ ∃ func_cursor child, func_cursor ∈ l ∧ cond func_cursor = true
        ∧ child ∈ walk_preorder func_cursor ∧ P child n.
Proof.
  revert acc. induction l as [|c l IH]; intros acc; simpl.
  - split; [by left|]. intros [?|(c & ? & Hc & _)]; [done|]. by inversion Hc.
  - rewrite IH. clear IH. split.
    + intros [Hacc|(fc & child & Hfc & ?)].
      * destruct (cond c) eqn:Hc; [|by left].
        apply fold_step_spec in Hacc as [?|(child & ? & ?)]; [by left|].
        right. exists c, child. rewrite elem_of_cons. auto.
      * right. exists fc, child. rewrite elem_of_cons. tauto.
    + intros [Hacc|(fc & child & Hfc & Hc & Hchild & HP)].
      * left. destruct (cond c); [|done]. apply fold_step_spec. by left.
      * apply elem_of_cons in Hfc as [->|Hfc].
        -- left. rewrite Hc. apply fold_step_spec. right. by exists child.
        -- right. by exists fc, child.
Qed.

End FoldMembership.

Lemma analysed_spec (tu : Cursor) (F : list string) (cursor : Cursor) :
  cursor ∈ walk_preorder tu →
  analysed (list_to_set F) cursor = true ↔ analysed_definition tu F cursor.
Proof.
  intros Hin. unfold analysed, analysed_definition.
  rewrite !andb_true_iff, !bool_decide_eq_true, elem_of_list_to_set. tauto.
Qed.

(** The two classifiers, one result set at a time. *)

Ltac classify_cases :=
  match goal with
  | |- context [referenced ?child] =>
      destruct (referenced child) as [rk rs [] [] rp]
  end;
  simpl; repeat (case_bool_decide; simpl);
  rewrite ?elem_of_union, ?elem_of_singleton;
  intuition (try congruence; eauto).

Lemma classify_global_vars (S : gset string) (acc : Usage) (child : Cursor)
    (n : string) :
  n ∈ global_vars (FindGlobalsAndExterns.classify S acc child)
  ↔ n ∈ global_vars acc ∨ global_reference true child n.
Proof.
  unfold FindGlobalsAndExterns.classify, global_reference. classify_cases.
Qed.

Lemma classify_external_funcs (S : gset string) (acc : Usage) (child : Cursor)
    (n : string) :
  n ∈ external_funcs (FindGlobalsAndExterns.classify S acc child)
  ↔ n ∈ external_funcs acc ∨ external_reference S child n.
Proof.
  unfold FindGlobalsAndExterns.classify, external_reference. classify_cases.
Qed.

Lemma standalone_classify_global_vars (S : gset string) (acc : Usage)
    (child : Cursor) (n : string) :
  n ∈ global_vars (Standalone.classify S acc child)
  ↔ n ∈ global_vars acc ∨ global_reference false child n.
Proof.
  unfold Standalone.classify, global_reference. classify_cases.
Qed.

Lemma standalone_classify_external_funcs (S : gset string) (acc : Usage)
    (child : Cursor) (n : string) :
  n ∈ external_funcs (Standalone.classify S acc child)
  ↔ n ∈ external_funcs acc ∨ external_reference S child n.
Proof.
  unfold Standalone.classify, external_reference. classify_cases.
Qed.

Lemma outer_hits_iff (tu : Cursor) (F : list string)
    (P : Cursor → string → Prop) (n : string) :
  (n ∈ (∅ : gset string)
   ∨ ∃ func_cursor child, func_cursor ∈ walk_preorder tu
       ∧ analysed (list_to_set F) func_cursor = true
       ∧ child ∈ walk_preorder func_cursor ∧ P child n)
  ↔ ∃ func_cursor child, analysed_definition tu F func_cursor
      ∧ child ∈ walk_preorder func_cursor ∧ P child n.
Proof.
  split.
  - intros [?|(fc & child & Hfc & Hc & ?)]; [set_solver|].
    exists fc, child. split; [|done]. by apply analysed_spec.
  - intros (fc & child & Hfc & ?). right. exists fc, child.
    split; [apply Hfc|]. split; [|done].
    exact (proj2 (analysed_spec tu F fc (proj1 Hfc)) Hfc).
Qed.

Lemma usage_of_global_vars (tu : Cursor) (F : list string) (n : string) :
  n ∈ global_vars (FindGlobalsAndExterns.usage_of tu F)
  ↔ ∃ func_cursor child, analysed_definition tu F func_cursor
      ∧ child ∈ walk_preorder func_cursor ∧ global_reference true child n.
Proof.
  etrans;
    [exact (fold_outer_spec global_vars _ (global_reference true)
              (classify_global_vars (list_to_set F))
              (analysed (list_to_set F)) (walk_preorder tu) (mkUsage ∅ ∅) n)|].
  apply outer_hits_iff.
Qed.

Lemma usage_of_external_funcs (tu : Cursor) (F : list string) (n : string) :
  n ∈ external_funcs (FindGlobalsAndExterns.usage_of tu F)
  ↔ ∃ func_cursor child, analysed_definition tu F func_cursor
      ∧ child ∈ walk_preorder func_cursor
      ∧ external_reference (list_to_set F) child n.
Proof.
  etrans;
    [exact (fold_outer_spec external_funcs _ (external_reference (list_to_set F))
              (classify_external_funcs (list_to_set F))
              (analysed (list_to_set F)) (walk_preorder tu) (mkUsage ∅ ∅) n)|].
  apply outer_hits_iff.
Qed.

Lemma standalone_usage_of_global_vars (tu : Cursor) (F : list string)
    (n : string) :
  n ∈ global_vars (Standalone.usage_of tu F)
  ↔ ∃ func_cursor child, analysed_definition tu F func_cursor
      ∧ child ∈ walk_preorder func_cursor ∧ global_reference false child n.
Proof.
  etrans;
    [exact (fold_outer_spec global_vars _ (global_reference false)
              (standalone_classify_global_vars (list_to_set F))
              (analysed (list_to_set F)) (walk_preorder tu) (mkUsage ∅ ∅) n)|].
  apply outer_hits_iff.
Qed.

Lemma standalone_usage_of_external_funcs (tu : Cursor) (F : list string)
    (n : string) :
  n ∈ external_funcs (Standalone.usage_of tu F)
  ↔ ∃ func_cursor child, analysed_definition tu F func_cursor
      ∧ child ∈ walk_preorder func_cursor
      ∧ external_reference (list_to_set F) child n.
Proof.
  etrans;
    [exact (fold_outer_spec external_funcs _ (external_reference (list_to_set F))
              (standalone_classify_external_funcs (list_to_set F))
              (analysed (list_to_set F)) (walk_preorder tu) (mkUsage ∅ ∅) n)|].
  apply outer_hits_iff.
Qed.

Lemma find_globals_and_externs_parsed (fe : Frontend) (p : string)
    (tu : Cursor) (F : list string) :
  path_exists fe p = true → index_parse fe p = Some tu →
  FindGlobalsAndExterns.find_globals_and_externs fe p F
  = FindGlobalsAndExterns.usage_of tu F
  ∧ Standalone.find_globals_and_externs fe p F = Standalone.usage_of tu F.
Proof.
  intros He Hp. unfold FindGlobalsAndExterns.find_globals_and_externs,
    Standalone.find_globals_and_externs. by rewrite He, Hp.
Qed.

(** C5.  A reference, inside an analysed definition, to a file-scope
    variable whose type is not const-qualified puts the variable's name
    in [global_vars], both in [find_globals_and_externs.py], which leaves
    const-qualified globals out, and in [standalone_driver_gen.py], which
    does not. *)
Theorem nonconst_global_recorded (fe : Frontend) (p : string) (tu : Cursor)
    (F : list string) (func_cursor child : Cursor) :
  path_exists fe p = true →
  index_parse fe p = Some tu →
  analysed_definition tu F func_cursor →
  child ∈ walk_preorder func_cursor →
  kind child = DECL_REF_EXPR →
  ref_kind (referenced child) = VAR_DECL →
  ref_semantic_parent_kind (referenced child) = TRANSLATION_UNIT →
  ref_is_const_qualified (referenced child) = false →
  ref_spelling (referenced child)
    ∈ global_vars (FindGlobalsAndExterns.find_globals_and_externs fe p F)
  ∧ ref_spelling (referenced child)
    ∈ global_vars (Standalone.find_globals_and_externs fe p F).
Proof.
  intros He Hp Hdef Hchild Hk Hrk Hparent Hconst.
  destruct (find_globals_and_externs_parsed fe p tu F He Hp) as [-> ->].
  split.
  - apply usage_of_global_vars. exists func_cursor, child.
    unfold global_reference. auto 10.
  - apply standalone_usage_of_global_vars. exists func_cursor, child.
    unfold global_reference. auto 10.
Qed.




(** The guarantee can be checked on a given unit. *)
#[global] Instance ordinary_identifiers_unambiguous_dec (tu : Cursor) :
  Decision (ordinary_identifiers_unambiguous tu).
Proof.
  refine (cast_if (decide (Forall (λ c1, Forall (λ c2,
    kind c1 = DECL_REF_EXPR → kind c2 = DECL_REF_EXPR →
    ref_kind (referenced c1) = VAR_DECL →
    ref_semantic_parent_kind (referenced c1) = TRANSLATION_UNIT →
    ref_kind (referenced c2) = FUNCTION_DECL →
    ref_spelling (referenced c1) ≠ ref_spelling (referenced c2))
    (walk_preorder tu)) (walk_preorder tu))));
    unfold ordinary_identifiers_unambiguous.
  - intros c1 c2 H1 H2. rewrite Forall_forall in f.
    specialize (f c1 H1). rewrite Forall_forall in f. exact (f c2 H2).
  - intros H. apply n. apply Forall_forall. intros c1 H1.
    apply Forall_forall. intros c2 H2. by apply H.
Defined.

Lemma nonconst_global_recorded_witness :
  "another_global"
    ∈ global_vars (FindGlobalsAndExterns.find_globals_and_externs
                     (Scenario.parsed Scenario.path Scenario.globals_unit)
                     Scenario.path Scenario.globals_names)
  ∧ "another_global"
    ∈ global_vars (Standalone.find_globals_and_externs
                     (Scenario.parsed Scenario.path Scenario.globals_unit)
                     Scenario.path Scenario.globals_names).
Proof.
  apply (nonconst_global_recorded
           (Scenario.parsed Scenario.path Scenario.globals_unit)
           Scenario.path Scenario.globals_unit Scenario.globals_names
           Scenario.globals_main
           (Scenario.global_ref "another_global" Scenario.int_t)).
  - reflexivity.
  - reflexivity.
  - split; [|split; [reflexivity|split; [reflexivity|]]].
    + apply (list_elem_of_lookup_2 _ 15). reflexivity.
    + apply (list_elem_of_lookup_2 _ 0). reflexivity.
  - apply (list_elem_of_lookup_2 _ 4). reflexivity.
  - reflexivity.
  - reflexivity.
  - reflexivity.
  - reflexivity.
Defined.



(** The unit of the counterexample is one the amended claim leaves out. *)
Example overlap_unit_is_ambiguous :
  ¬ ordinary_identifiers_unambiguous overlap_unit.
Proof. apply (bool_decide_eq_false_1 _). vm_compute. reflexivity. Qed.

(** Scenario C in both copies: the const-qualified global is left out by
    the single-file analyser and kept by the standalone one. *)
Example scenario_globals :
  FindGlobalsAndExterns.find_globals_and_externs
    (Scenario.parsed Scenario.path Scenario.globals_unit)
    Scenario.path Scenario.globals_names
  = mkUsage {[ "global_var"; "another_global" ]} {[ "external_func" ]}
  ∧ Standalone.find_globals_and_externs
      (Scenario.parsed Scenario.path Scenario.globals_unit)
      Scenario.path Scenario.globals_names
    = mkUsage {[ "global_var"; "const_global"; "another_global" ]}
              {[ "external_func" ]}.
Proof. split; vm_compute; reflexivity. Qed.

(** ** The in-band failure value *)

Lemma walk_calls (F : list string) (c : Cursor) :
  c ∈ flat_map walk_preorder (map (λ n, Scenario.call n []) F)
  ↔ ∃ n, n ∈ F ∧ c = Scenario.call n [].
Proof.
  rewrite elem_of_flat_map_walk. split.
  - intros (c' & Hc' & Hc). apply list_elem_of_fmap in Hc' as (n & -> & Hn).
    exists n. split; [done|]. simpl in Hc. by apply list_elem_of_singleton in Hc.
  - intros (n & Hn & ->). exists (Scenario.call n []). split.
    + apply list_elem_of_fmap. by exists n.
    + apply walk_preorder_self.
Qed.

Lemma saturating_unit_kinds (F : list string) (c : Cursor) :
  c ∈ walk_preorder (Scenario.saturating_unit F) → kind c ≠ DECL_REF_EXPR.
Proof.
  destruct F as [|f F]; simpl.
  - intros ->%list_elem_of_singleton. done.
  - rewrite app_nil_r. intros [->|[->|Hc]%elem_of_cons]%elem_of_cons;
      [done|done|].
    apply elem_of_cons in Hc as [->|Hc]; [done|].
    apply walk_calls in Hc as (n & _ & ->). done.
Qed.

Lemma saturating_unit_entrypoints (F : list string) :
  FindEntrypoints.entrypoints_of (Scenario.saturating_unit F) F = ∅.
Proof.
  apply entrypoints_of_empty. intros n Hn. split; [done|].
  destruct F as [|f F]; [by inversion Hn|].
  exists (mkCursor FUNCTION_DECL f true (Scenario.fn_t "fn" false)
            Scenario.void_t Scenario.no_ref
            (map (λ n, Scenario.call n []) (f :: F))).
  split.
  - split; [|split; [done|split; [done|]]].
    + apply (list_elem_of_lookup_2 _ 1). reflexivity.
    + simpl. apply elem_of_cons. by left.
  - exists (Scenario.call n []). split; [|done].
    rewrite walk_preorder_unfold. apply elem_of_cons. right.
    apply walk_calls. by exists n.
Qed.

Lemma saturating_unit_usage (F : list string) :
  FindGlobalsAndExterns.usage_of (Scenario.saturating_unit F) F = mkUsage ∅ ∅.
Proof.
  assert (global_vars (FindGlobalsAndExterns.usage_of
                         (Scenario.saturating_unit F) F) = ∅) as Hg.
  { apply set_eq. intros n. split; [|set_solver].
    intros (fc & child & Hfc & Hchild & Hk & _)%usage_of_global_vars.
    destruct (saturating_unit_kinds F child); [|done].
    apply (walk_preorder_trans _ fc); [apply Hfc|done]. }
  assert (external_funcs (FindGlobalsAndExterns.usage_of
                            (Scenario.saturating_unit F) F) = ∅) as Hx.
  { apply set_eq. intros n. split; [|set_solver].
    intros (fc & child & Hfc & Hchild & Hk & _)%usage_of_external_funcs.
    destruct (saturating_unit_kinds F child); [|done].
    apply (walk_preorder_trans _ fc); [apply Hfc|done]. }
  destruct (FindGlobalsAndExterns.usage_of _ _) as [g x].
  simpl in Hg, Hx. by subst.
Qed.

(** C10.  When the path does not exist, or the parse yields no unit,
    [find_entrypoints] returns the empty set and
    [find_globals_and_externs] the pair of empty sets; a unit that does
    parse can produce the very same values, so the caller cannot tell
    the failure from an analysis that found nothing. *)
Theorem analyses_fail_in_band (fe : Frontend) (p : string) (F : list string) :
  path_exists fe p = false ∨ index_parse fe p = None →
  FindEntrypoints.find_entrypoints fe p F = ∅
  ∧ FindGlobalsAndExterns.find_globals_and_externs fe p F = mkUsage ∅ ∅
  ∧ ∃ tu,
      FindEntrypoints.find_entrypoints (Scenario.parsed p tu) p F
      = FindEntrypoints.find_entrypoints fe p F
      ∧ FindGlobalsAndExterns.find_globals_and_externs
          (Scenario.parsed p tu) p F
        = FindGlobalsAndExterns.find_globals_and_externs fe p F.
Proof.
  intros Hfail.
  assert (FindEntrypoints.find_entrypoints fe p F = ∅) as He.
  { unfold FindEntrypoints.find_entrypoints.
    destruct Hfail as [-> | ->]; [done|]. by destruct (path_exists fe p). }
  assert (FindGlobalsAndExterns.find_globals_and_externs fe p F
          = mkUsage ∅ ∅) as Hu.
  { unfold FindGlobalsAndExterns.find_globals_and_externs.
    destruct Hfail as [-> | ->]; [done|]. by destruct (path_exists fe p). }
  split; [done|]. split; [done|].
  exists (Scenario.saturating_unit F). rewrite He, Hu.
  unfold FindEntrypoints.find_entrypoints,
    FindGlobalsAndExterns.find_globals_and_externs. simpl.
  rewrite bool_decide_eq_true_2 by done. simpl.
  by rewrite saturating_unit_entrypoints, saturating_unit_usage.
Qed.

Lemma analyses_fail_in_band_witness :
  (path_exists Scenario.missing Scenario.path = false
   ∨ index_parse Scenario.missing Scenario.path = None)
  ∧ FindEntrypoints.find_entrypoints
      Scenario.missing Scenario.path Scenario.calls_names = ∅
  ∧ FindGlobalsAndExterns.find_globals_and_externs
      Scenario.missing Scenario.path Scenario.calls_names = mkUsage ∅ ∅
  ∧ ∃ tu,
      FindEntrypoints.find_entrypoints
        (Scenario.parsed Scenario.path tu) Scenario.path Scenario.calls_names
      = FindEntrypoints.find_entrypoints
          Scenario.missing Scenario.path Scenario.calls_names
      ∧ FindGlobalsAndExterns.find_globals_and_externs
          (Scenario.parsed Scenario.path tu) Scenario.path
          Scenario.calls_names
        = FindGlobalsAndExterns.find_globals_and_externs
            Scenario.missing Scenario.path Scenario.calls_names.
Proof.
  split; [left; reflexivity|].
  apply (analyses_fail_in_band Scenario.missing Scenario.path
           Scenario.calls_names).
  left. reflexivity.
Defined.

(** ** The entrypoint-call generator *)

Lemma fold_declare_param (ps : list Cursor) (driver_code arg_names : list string) :
  fold_left GenerateDriver.declare_param ps (driver_code, arg_names)
  = (driver_code
       ++ concat (imap (λ i param,
                    param_lines (arg_name_at (length arg_names + i) param)
                                param) ps),
     arg_names ++ imap (λ i, arg_name_at (length arg_names + i)) ps).
Proof.
  revert driver_code arg_names.
  induction ps as [|param ps IH]; intros driver_code arg_names; simpl.
  - by rewrite !app_nil_r.
  - assert (∀ dc : list string,
      (if bool_decide (ty_kind (type param) = POINTER)
       then dc ++ ["        make_unknown(&"
              +:+ arg_name_at (length arg_names) param
              +:+ ", max(16, sizeof(*"
              +:+ arg_name_at (length arg_names) param +:+ ")));"]
       else dc ++ ["        make_unknown(&"
              +:+ arg_name_at (length arg_names) param +:+ ", sizeof("
              +:+ arg_name_at (length arg_names) param +:+ "));"])
      = dc ++ [if bool_decide (ty_kind (type param) = POINTER)
               then "        make_unknown(&"
                      +:+ arg_name_at (length arg_names) param
                      +:+ ", max(16, sizeof(*"
                      +:+ arg_name_at (length arg_names) param +:+ ")));"
               else "        make_unknown(&"
                      +:+ arg_name_at (length arg_names) param +:+ ", sizeof("
                      +:+ arg_name_at (length arg_names) param +:+ "));"])
      as Hif by (intros dc; by case_bool_decide).
    unfold arg_name_at in Hif |- *. rewrite Hif, IH. clear IH Hif.
    rewrite length_app. simpl. rewrite Nat.add_0_r.
    f_equal.
    + rewrite <- !app_assoc. simpl. do 4 f_equal.
      apply imap_ext. intros i x _. simpl. unfold arg_name_at.
      by replace (length arg_names + 1 + i) with (length arg_names + S i) by lia.
    + rewrite <- app_assoc. simpl. do 2 f_equal.
      apply imap_ext. intros i x _. simpl. unfold arg_name_at.
      by replace (length arg_names + 1 + i) with (length arg_names + S i) by lia.
Qed.

Lemma emit_entrypoint_spec (decls : gmap string Cursor)
    (driver_code : list string) (entrypoint : string) :
  GenerateDriver.emit_entrypoint decls driver_code entrypoint
  = driver_code ++ entry_lines decls entrypoint.
Proof.
  unfold GenerateDriver.emit_entrypoint, entry_lines.
  destruct (decls !! entrypoint) as [func_cursor|]; [|done].
  rewrite fold_declare_param. simpl.
  unfold block_of, block_arg_names. rewrite <- !app_assoc. done.
Qed.

Lemma fold_emit_entrypoint (decls : gmap string Cursor)
    (entrypoints : list string) (driver_code : list string) :
  fold_left (GenerateDriver.emit_entrypoint decls) entrypoints driver_code
  = driver_code ++ concat (map (entry_lines decls) entrypoints).
Proof.
  revert driver_code. induction entrypoints as [|e es IH];
    intros driver_code; simpl.
  - by rewrite app_nil_r.
  - by rewrite IH, emit_entrypoint_spec, <- app_assoc.
Qed.

Lemma driver_lines_spec (c_file_name : string) (tu : Cursor)
    (entrypoints : list string) :
  GenerateDriver.driver_lines c_file_name tu entrypoints
  = GenerateDriver.header c_file_name
    ++ concat (map (entry_lines (GenerateDriver.function_decls tu))
                   entrypoints)
    ++ ["    return 0;"; "}"].
Proof.
  unfold GenerateDriver.driver_lines. rewrite fold_emit_entrypoint.
  by rewrite <- !app_assoc.
Qed.

(** The lookup holds definitions of the unit, keyed by their name. *)
Lemma function_decls_lookup (tu : Cursor) (name : string) (cursor : Cursor) :
  GenerateDriver.function_decls tu !! name = Some cursor →
  cursor ∈ walk_preorder tu ∧ kind cursor = FUNCTION_DECL
  ∧ is_definition cursor = true ∧ spelling cursor = name.
Proof.
  unfold GenerateDriver.function_decls.
  assert (∀ l (m : gmap string Cursor),
    (∀ n c, m !! n = Some c → c ∈ walk_preorder tu ∧ kind c = FUNCTION_DECL
                              ∧ is_definition c = true ∧ spelling c = n) →
    (∀ c, c ∈ l → c ∈ walk_preorder tu) →
    ∀ n c, fold_left (λ decls cursor,
             if bool_decide (kind cursor = FUNCTION_DECL)
                && is_definition cursor
             then <[ spelling cursor := cursor ]> decls
             else decls) l m !! n = Some c →
           c ∈ walk_preorder tu ∧ kind c = FUNCTION_DECL
           ∧ is_definition c = true ∧ spelling c = n) as Hgen.
  { induction l as [|x l IH]; intros m Hm Hl n c; simpl; [apply Hm|].
    apply IH.
    - intros n' c'. destruct (bool_decide (kind x = FUNCTION_DECL)) eqn:Hk;
        simpl; [|apply Hm].
      destruct (is_definition x) eqn:Hd; [|apply Hm].
      apply bool_decide_eq_true_1 in Hk.
      destruct (decide (spelling x = n')) as [<-|Hne].
      + rewrite lookup_insert_eq. intros [= <-].
        split; [apply Hl, elem_of_cons; by left|done].
      + rewrite lookup_insert_ne by done. apply Hm.
    - intros c' Hc'. apply Hl, elem_of_cons. by right. }
  apply Hgen; [intros n c; by rewrite lookup_empty|done].
Qed.

(** C2.  The driver consists of the header, the lines of every requested
    entrypoint in order, and the two closing lines.  For an entrypoint
    whose definition is in the lookup these lines are: for each parameter
    in declaration order, a declaration with the parameter's type
    spelling followed by a [make_unknown] on the variable's own address,
    of the larger of 16 and the size of the pointee for a pointer type
    and of the size of the variable otherwise; then one call with the
    names in declaration order. *)
Theorem generate_driver_blocks (fe : Frontend) (c_file_name p : string)
    (tu : Cursor) (entrypoints : list string) :
  path_exists fe p = true →
  index_parse fe p = Some tu →
  GenerateDriver.generate_driver fe c_file_name p entrypoints
  = join nl (GenerateDriver.header c_file_name
             ++ concat (map (entry_lines (GenerateDriver.function_decls tu))
                            entrypoints)
             ++ ["    return 0;"; "}"])
  ∧ ∀ entrypoint func_cursor,
      GenerateDriver.function_decls tu !! entrypoint = Some func_cursor →
      entry_lines (GenerateDriver.function_decls tu) entrypoint
      = ["    {"]
        ++ concat (imap (λ i param,
             [ "        " +:+ ty_spelling (type param) +:+ " "
                 +:+ arg_name_at i param +:+ ";";
               if bool_decide (ty_kind (type param) = POINTER)
               then "        make_unknown(&" +:+ arg_name_at i param
                      +:+ ", max(16, sizeof(*" +:+ arg_name_at i param
                      +:+ ")));"
               else "        make_unknown(&" +:+ arg_name_at i param
                      +:+ ", sizeof(" +:+ arg_name_at i param +:+ "));" ])
             (filter (λ c, kind c = PARM_DECL) (get_children func_cursor)))
        ++ ["        " +:+ entrypoint +:+ "("
              +:+ join ", "
                    (imap arg_name_at
                       (filter (λ c, kind c = PARM_DECL)
                               (get_children func_cursor)))
              +:+ ");";
            "    }"]
      ∧ func_cursor ∈ walk_preorder tu
      ∧ kind func_cursor = FUNCTION_DECL
      ∧ is_definition func_cursor = true
      ∧ spelling func_cursor = entrypoint.
Proof.
  intros He Hp. split.
  - unfold GenerateDriver.generate_driver. rewrite He, Hp. simpl.
    by rewrite driver_lines_spec.
  - intros entrypoint func_cursor Hlookup. split.
    + unfold entry_lines. by rewrite Hlookup.
    + by apply function_decls_lookup.
Qed.

Lemma generate_driver_blocks_witness :
  path_exists (Scenario.parsed Scenario.path Scenario.params_unit)
    Scenario.path = true
  ∧ index_parse (Scenario.parsed Scenario.path Scenario.params_unit)
      Scenario.path = Some Scenario.params_unit
  ∧ GenerateDriver.generate_driver
      (Scenario.parsed Scenario.path Scenario.params_unit)
      "my_app.c" Scenario.path ["takes_ptr"; "non_existent_func"]
    = join nl (GenerateDriver.header "my_app.c"
               ++ concat (map (entry_lines (GenerateDriver.function_decls
                                              Scenario.params_unit))
                              ["takes_ptr"; "non_existent_func"])
               ++ ["    return 0;"; "}"]).
Proof.
  split; [reflexivity|]. split; [reflexivity|].
  apply (generate_driver_blocks
           (Scenario.parsed Scenario.path Scenario.params_unit)
           "my_app.c" Scenario.path Scenario.params_unit
           ["takes_ptr"; "non_existent_func"]); reflexivity.
Defined.

(** Scenario E. *)
Example scenario_takes_ptr :
  entry_lines (GenerateDriver.function_decls Scenario.params_unit) "takes_ptr"
  = [ "    {";
      "        int * a;";
      "        make_unknown(&a, max(16, sizeof(*a)));";
      "        char * b;";
      "        make_unknown(&b, max(16, sizeof(*b)));";
      "        takes_ptr(a, b);";
      "    }" ].
Proof. vm_compute. reflexivity. Qed.

(** The synthesized names determine the position they were made for. *)
Lemma synthesized_name_inj (i j : nat) :
  "arg_" +:+ pretty i = "arg_" +:+ pretty j → i = j.
Proof. simpl. intros [= H]. by apply (inj pretty). Qed.

(** The names of a block are pairwise distinct when the spelled names are
    and none of them is one of the names synthesized for the block. *)
Lemma block_arg_names_distinct (func_cursor : Cursor) :
  (∀ i j p q, GenerateDriver.params func_cursor !! i = Some p →
     GenerateDriver.params func_cursor !! j = Some q →
     spelling p ≠ EmptyString → spelling p = spelling q → i = j) →
  (∀ i p k, GenerateDriver.params func_cursor !! i = Some p →
     k < length (GenerateDriver.params func_cursor) →
     spelling p ≠ "arg_" +:+ pretty k) →
  NoDup (block_arg_names func_cursor).
Proof.
  intros Hnamed Hfresh. apply NoDup_alt. intros i j x.
  unfold block_arg_names. rewrite !list_lookup_imap.
  destruct (GenerateDriver.params func_cursor !! i) as [p|] eqn:Hp; [|done].
  destruct (GenerateDriver.params func_cursor !! j) as [q|] eqn:Hq; [|done].
  simpl. intros [= <-] [= Heq]. revert Heq. unfold arg_name_at, str_or.
  pose proof (lookup_lt_Some _ _ _ Hp) as Hi.
  pose proof (lookup_lt_Some _ _ _ Hq) as Hj.
  destruct (decide (spelling p = EmptyString)) as [Hpe|Hpe];
    destruct (decide (spelling q = EmptyString)) as [Hqe|Hqe];
    rewrite ?(bool_decide_eq_true_2 _ Hpe), ?(bool_decide_eq_true_2 _ Hqe),
      ?(bool_decide_eq_false_2 _ Hpe), ?(bool_decide_eq_false_2 _ Hqe);
    intros Heq.
  - by apply synthesized_name_inj.
  - destruct (Hfresh j q i Hq Hi). done.
  - destruct (Hfresh i p j Hp Hj). done.
  - by apply (Hnamed i j p q).
Qed.

(** C8.  On [void f(int arg_1, int) {}] the name synthesized for the
    unnamed parameter at position 1 is the spelled name of the parameter
    at position 0: the block declares [arg_1] twice and passes it twice. *)
Theorem unnamed_parameter_name_clash :
  snd (fold_left GenerateDriver.declare_param
         (GenerateDriver.params Scenario.clash_f) ([], []))
  = ["arg_1"; "arg_1"]
  ∧ ¬ NoDup (block_arg_names Scenario.clash_f)
  ∧ GenerateDriver.driver_lines "clash.c" Scenario.clash_unit ["f"]
    = GenerateDriver.header "clash.c"
      ++ [ "    {";
           "        int arg_1;";
           "        make_unknown(&arg_1, sizeof(arg_1));";
           "        int arg_1;";
           "        make_unknown(&arg_1, sizeof(arg_1));";
           "        f(arg_1, arg_1);";
           "    }";
           "    return 0;";
           "}" ].
Proof.
  split; [by vm_compute|]. split; [|by vm_compute].
  assert (block_arg_names Scenario.clash_f = ["arg_1"; "arg_1"]) as ->
    by (by vm_compute).
  intros Hnd. apply NoDup_cons in Hnd as [Hnotin _].
  apply Hnotin. apply list_elem_of_singleton. done.
Qed.

(** ** Strings: [join] and [split] *)

Section StringFacts.

#[local] Arguments String.append : simpl nomatch.

Lemma str_app_assoc (s1 s2 s3 : string) :
  (s1 +:+ s2) +:+ s3 = s1 +:+ (s2 +:+ s3).
Proof. induction s1 as [|a s1 IH]; simpl; congruence. Qed.

Lemma str_length_app (s1 s2 : string) :
  String.length (s1 +:+ s2) = String.length s1 + String.length s2.
Proof. induction s1 as [|a s1 IH]; simpl; congruence. Qed.

Lemma prefix_app (sep s : string) : String.prefix sep (sep +:+ s) = true.
Proof.
  induction sep as [|a sep IH]; simpl; [by destruct s|].
  destruct (ascii_dec a a); [done|congruence].
Qed.

(** Whether [sep] is a prefix is decided by the first [length sep]
    characters. *)
Lemma prefix_app_short (sep x post : string) :
  (String.length sep ≤ String.length x)%nat →
  String.prefix sep (x +:+ post) = String.prefix sep x.
Proof.
  revert x. induction sep as [|a sep IH]; intros x Hlen.
  - by destruct x, post.
  - destruct x as [|b x]; simpl in *; [lia|].
    destruct (ascii_dec a b); [|done]. apply IH. lia.
Qed.

Lemma join_app (sep : string) (l1 l2 : list string) :
  l1 ≠ [] → l2 ≠ [] →
  join sep (l1 ++ l2) = join sep l1 +:+ sep +:+ join sep l2.
Proof.
  intros H1 H2. unfold join. induction l1 as [|x l1 IH]; [done|].
  destruct l1 as [|y l1].
  - simpl. destruct l2; [done|]. done.
  - change (String.concat sep ((x :: y :: l1) ++ l2))
      with (x +:+ sep +:+ String.concat sep ((y :: l1) ++ l2)).
    rewrite IH by done.
    change (String.concat sep (x :: y :: l1))
      with (x +:+ sep +:+ String.concat sep (y :: l1)).
    by rewrite !str_app_assoc.
Qed.

Lemma split_from_skip (sep s post : string) :
  split_from sep (String.length s) (s +:+ post) = split_from sep 0 post.
Proof. induction s as [|a s IH]; simpl; [by destruct post|done]. Qed.

(** The first piece ends at the first occurrence of the separator. *)
Lemma split_at_first (sep pre post : string) :
  sep ≠ EmptyString →
  String.index 0 sep (pre +:+ sep) = Some (String.length pre) →
  split sep (pre +:+ sep +:+ post) = pre :: split sep post.
Proof.
  intros Hsep. unfold split. induction pre as [|b pre IH]; intros Hfirst.
  - destruct sep as [|a sep]; [done|]. simpl (EmptyString +:+ _).
    change (String a sep +:+ post) with (String a (sep +:+ post)).
    cbn [split_from].
    change (String a (sep +:+ post)) with (String a sep +:+ post).
    rewrite prefix_app. cbn [String.length]. rewrite Nat.sub_succ, Nat.sub_0_r.
    by rewrite split_from_skip.
  - change (String b pre +:+ sep +:+ post)
      with (String b (pre +:+ sep +:+ post)).
    change (String b pre +:+ sep) with (String b (pre +:+ sep)) in Hfirst.
    cbn [String.index String.length] in Hfirst.
    destruct (String.prefix sep (String b (pre +:+ sep))) eqn:Hpre; [done|].
    destruct (String.index 0 sep (pre +:+ sep)) as [k|] eqn:Hk; [|done].
    injection Hfirst as ->.
    cbn [split_from].
    replace (String.prefix sep (String b (pre +:+ sep +:+ post))) with false.
    + by rewrite IH.
    + rewrite <- Hpre.
      change (String b (pre +:+ sep +:+ post))
        with (String b pre +:+ sep +:+ post).
      rewrite <- str_app_assoc. symmetry.
      change (String b (pre +:+ sep)) with (String b pre +:+ sep).
      apply prefix_app_short. rewrite str_length_app. lia.
Qed.

(** Without an occurrence of the separator there is one piece. *)
Lemma split_none (sep s : string) :
  sep ≠ EmptyString → String.index 0 sep s = None → split sep s = [s].
Proof.
  intros Hsep. unfold split. induction s as [|a s IH]; intros Hnone; [done|].
  cbn [String.index] in Hnone. cbn [split_from].
  destruct (String.prefix sep (String a s)); [done|].
  destruct (String.index 0 sep s); [done|]. by rewrite IH.
Qed.

End StringFacts.

(** ** The environment-stub generator *)

Lemma fold_collect_param (l : list Cursor) (param_decls param_names : list string)
    (i : nat) :
  fold_left GenerateDriver2.collect_param l (param_decls, param_names, i)
  = (param_decls
       ++ imap (λ k param, ty_spelling (type param) +:+ " "
                             +:+ stub_param_name (i + k) param)
               (filter (λ c, kind c = PARM_DECL) l),
     param_names
       ++ imap (λ k, stub_param_name (i + k))
               (filter (λ c, kind c = PARM_DECL) l),
     i + length (filter (λ c, kind c = PARM_DECL) l)).
Proof.
  revert param_decls param_names i.
  induction l as [|param l IH]; intros param_decls param_names i; simpl.
  - by rewrite !app_nil_r, Nat.add_0_r.
  - rewrite filter_cons. case_bool_decide as Hk.
    + rewrite decide_True by done. rewrite IH. simpl.
      rewrite Nat.add_0_r, <- !app_assoc. simpl. unfold stub_param_name.
      f_equal; [f_equal|lia]; do 2 f_equal;
        apply imap_ext; intros k x _; simpl;
        by replace (i + 1 + k) with (i + S k) by lia.
    + rewrite decide_False by done. apply IH.
Qed.

Lemma collect_param_decls (cursor : Cursor) :
  fold_left GenerateDriver2.collect_param (get_children cursor) ([], [], 0)
  = (stub_param_decls cursor,
     imap stub_param_name (filter (λ c, kind c = PARM_DECL)
                                  (get_children cursor)),
     length (filter (λ c, kind c = PARM_DECL) (get_children cursor))).
Proof. by rewrite fold_collect_param. Qed.

Lemma add_variadic_spec (cursor : Cursor) (param_decls : list string) :
  GenerateDriver2.add_variadic cursor param_decls
  = param_decls ++ (if declared_variadic cursor
                    then match param_decls with
                         | [] => ["void, ..."]
                         | _ :: _ => ["..."]
                         end
                    else []).
Proof.
  unfold GenerateDriver2.add_variadic, declared_variadic.
  destruct (_ && _); [by destruct param_decls|by rewrite app_nil_r].
Qed.

Lemma check_param_app (driver_code : list string) (i : nat) (param : Cursor) :
  GenerateDriver2.check_param (driver_code, i) param
  = (driver_code ++ fst (GenerateDriver2.check_param ([], i) param),
     snd (GenerateDriver2.check_param ([], i) param)).
Proof.
  unfold GenerateDriver2.check_param.
  repeat case_bool_decide; simpl;
    try destruct (GenerateDriver2.pointee_is_const_qualified _); simpl;
    by rewrite <- ?app_assoc, ?app_nil_r.
Qed.

Lemma fold_check_param_app (l : list Cursor) (driver_code : list string)
    (i : nat) :
  fold_left GenerateDriver2.check_param l (driver_code, i)
  = (driver_code ++ fst (fold_left GenerateDriver2.check_param l ([], i)),
     snd (fold_left GenerateDriver2.check_param l ([], i))).
Proof.
  revert driver_code i. induction l as [|param l IH]; intros driver_code i.
  - simpl. by rewrite app_nil_r.
  - cbn [fold_left]. rewrite check_param_app, IH.
    destruct (GenerateDriver2.check_param ([], i) param) as [lines j].
    cbn [fst snd]. rewrite (IH lines j). cbn [fst snd].
    by rewrite <- app_assoc.
Qed.

Lemma return_lines_app (cursor : Cursor) (driver_code : list string) :
  GenerateDriver2.return_lines cursor driver_code
  = driver_code ++ GenerateDriver2.return_lines cursor [].
Proof.
  unfold GenerateDriver2.return_lines.
  repeat case_bool_decide; simpl; by rewrite <- ?app_assoc, ?app_nil_r.
Qed.

Lemma emit_stub_spec (external_funcs : list string)
    (driver_code : list string) (cursor : Cursor) :
  GenerateDriver2.emit_stub external_funcs driver_code cursor
  = driver_code
    ++ (if needs_stub external_funcs cursor then stub_of cursor else []).
Proof.
  unfold GenerateDriver2.emit_stub, needs_stub.
  destruct (_ && _ && _); [|by rewrite app_nil_r].
  rewrite collect_param_decls, add_variadic_spec, fold_check_param_app.
  rewrite return_lines_app. unfold stub_of, stub_rest,
    GenerateDriver2.signature_line.
  by rewrite <- !app_assoc.
Qed.

Lemma standalone_emit_stub_spec (external_funcs : list string)
    (driver_code : list string) (cursor : Cursor) :
  Standalone.emit_stub external_funcs driver_code cursor
  = driver_code
    ++ (if needs_stub external_funcs cursor
        then standalone_stub_of cursor else []).
Proof.
  unfold Standalone.emit_stub, needs_stub.
  destruct (_ && _ && _); [|by rewrite app_nil_r].
  rewrite collect_param_decls, fold_check_param_app.
  rewrite return_lines_app. unfold standalone_stub_of, stub_rest,
    GenerateDriver2.signature_line.
  by rewrite <- !app_assoc.
Qed.

(** A loop whose step appends [f x] appends the concatenation. *)
Lemma fold_left_append {A} (step : list string → A → list string)
    (f : A → list string) (l : list A) (acc : list string) :
  (∀ acc x, step acc x = acc ++ f x) →
  fold_left step l acc = acc ++ concat (map f l).
Proof.
  intros Hstep. revert acc. induction l as [|x l IH]; intros acc; simpl.
  - by rewrite app_nil_r.
  - by rewrite IH, Hstep, <- app_assoc.
Qed.

Lemma stubs_driver_lines (tu : Cursor) (global_vars external_funcs : list string) :
  GenerateDriver2.driver_lines tu global_vars external_funcs
  = stubs_preamble tu global_vars
    ++ concat (map (λ cursor, if needs_stub external_funcs cursor
                              then stub_of cursor else [])
                   (walk_preorder tu)).
Proof.
  unfold GenerateDriver2.driver_lines.
  by rewrite (fold_left_append _ _ _ _ (emit_stub_spec external_funcs)).
Qed.

Lemma standalone_stubs_driver_lines (tu : Cursor)
    (global_vars external_funcs : list string) :
  Standalone.driver_lines tu global_vars external_funcs
  = stubs_preamble tu global_vars
    ++ concat (map (λ cursor, if needs_stub external_funcs cursor
                              then standalone_stub_of cursor else [])
                   (walk_preorder tu)).
Proof.
  unfold Standalone.driver_lines.
  by rewrite (fold_left_append _ _ _ _
                (standalone_emit_stub_spec external_funcs)).
Qed.

(** The lines of an element of the walk stand in the concatenation. *)
Lemma concat_map_elem {A} (f : A → list string) (l : list A) (x : A) :
  x ∈ l →
  ∃ before after, concat (map f l) = before ++ f x ++ after.
Proof.
  intros (l1 & l2 & ->)%list_elem_of_split.
  exists (concat (map f l1)), (concat (map f l2)).
  by rewrite map_app, concat_app.
Qed.

(** ** The assembled driver *)

Lemma generate_driver_text (c_file_name : string) (tu : Cursor)
    (entrypoints : list string) :
  join nl (GenerateDriver.driver_lines c_file_name tu entrypoints)
  = driver_preface c_file_name +:+ main_marker
    +:+ main_body (GenerateDriver.function_decls tu) entrypoints.
Proof.
  rewrite driver_lines_spec. unfold driver_preface, main_body.
  set (rest := concat _ ++ _).
  assert (rest ≠ []) as Hrest by (subst rest; by intros [_ ?]%app_eq_nil).
  change (GenerateDriver.header c_file_name)
    with (take 5 (GenerateDriver.header c_file_name) ++ [main_marker]).
  rewrite <- app_assoc.
  rewrite join_app by done.
  rewrite (join_app nl [main_marker] rest) by done.
  by rewrite !str_app_assoc.
Qed.

Lemma main_marker_nonempty : main_marker ≠ EmptyString.
Proof. done. Qed.

(** When the marker first occurs where the generator wrote it and does
    not occur in the blocks, the second piece of the split is the text
    after the marker. *)
Lemma split_generate_driver (c_file_name : string) (tu : Cursor)
    (entrypoints : list string) :
  String.index 0 main_marker (driver_preface c_file_name +:+ main_marker)
  = Some (String.length (driver_preface c_file_name)) →
  String.index 0 main_marker
    (main_body (GenerateDriver.function_decls tu) entrypoints) = None →
  split main_marker
    (join nl (GenerateDriver.driver_lines c_file_name tu entrypoints)) !! 1
  = Some (main_body (GenerateDriver.function_decls tu) entrypoints).
Proof.
  intros Hfirst Hnone. rewrite generate_driver_text.
  rewrite (split_at_first _ _ _ main_marker_nonempty Hfirst).
  by rewrite (split_none _ _ main_marker_nonempty Hnone).
Qed.

Lemma combine_spec (c_file_basename driver_part1 driver_part2 final : string) :
  Main2.combine c_file_basename driver_part1 driver_part2 = Some final →
  ∃ main_func_body,
    split main_marker driver_part2 !! 1 = Some main_func_body
    ∧ final = "#include " +:+ dq +:+ c_file_basename +:+ dq +:+ nl
              +:+ driver_part1
              +:+ nl +:+ "int main() {" +:+ nl
              +:+ "    randomize_all_global_vars();" +:+ nl
              +:+ main_func_body.
Proof.
  unfold Main2.combine. fold main_marker.
  destruct (split main_marker driver_part2 !! 1) as [body|]; [|done].
  intros [= <-]. exists body. split; [done|].
  by rewrite !str_app_assoc.
Qed.

(** C3.  Every stub written by [generate_driver_2] is a signature line
    followed at once by the call to [randomize_all_global_vars]; the
    driver assembled by [main2.py] continues, after the stub driver,
    with the opening of [main], the call to [randomize_all_global_vars]
    and then the second piece of the split, which, when the marker
    occurs only where the generator wrote it, is the text holding every
    entrypoint block. *)
Theorem randomize_first (fe : Frontend) (c_file_basename p : string)
    (tu : Cursor) (F : list string) :
  path_exists fe p = true →
  index_parse fe p = Some tu →
  (∀ global_vars external_funcs,
     GenerateDriver2.driver_lines tu global_vars external_funcs
     = stubs_preamble tu global_vars
       ++ concat (map (λ cursor, if needs_stub external_funcs cursor
                                 then stub_of cursor else [])
                      (walk_preorder tu)))
  ∧ (∀ cursor, ∃ signature rest,
       stub_of cursor
       = signature :: "    randomize_all_global_vars();" :: rest)
  ∧ (∀ final, Main2.main fe c_file_basename p F = Some final →
       ∃ driver_part1 main_func_body,
         final = "#include " +:+ dq +:+ c_file_basename +:+ dq +:+ nl
                 +:+ driver_part1
                 +:+ nl +:+ "int main() {" +:+ nl
                 +:+ "    randomize_all_global_vars();" +:+ nl
                 +:+ main_func_body)
  ∧ (String.index 0 main_marker
       (driver_preface c_file_basename +:+ main_marker)
     = Some (String.length (driver_preface c_file_basename)) →
     String.index 0 main_marker
       (main_body (GenerateDriver.function_decls tu)
          (elements (FindEntrypoints.entrypoints_of tu F))) = None →
     Main2.main fe c_file_basename p F
     = Some ("#include " +:+ dq +:+ c_file_basename +:+ dq +:+ nl
             +:+ join nl (GenerateDriver2.driver_lines tu
                   (elements (global_vars
                      (FindGlobalsAndExterns.usage_of tu F)))
                   (elements (external_funcs
                      (FindGlobalsAndExterns.usage_of tu F))))
             +:+ nl +:+ "int main() {" +:+ nl
             +:+ "    randomize_all_global_vars();" +:+ nl
             +:+ main_body (GenerateDriver.function_decls tu)
                   (elements (FindEntrypoints.entrypoints_of tu F)))).
Proof.
  intros He Hp. split; [|split; [|split]].
  - intros gv ef. apply stubs_driver_lines.
  - intros cursor. eexists _, _. reflexivity.
  - intros final Hmain. unfold Main2.main in Hmain.
    apply combine_spec in Hmain as (body & _ & ->). by eexists _, body.
  - intros Hfirst Hnone. unfold Main2.main.
    rewrite (find_entrypoints_parsed fe p tu F He Hp).
    destruct (find_globals_and_externs_parsed fe p tu F He Hp) as [-> _].
    unfold GenerateDriver2.generate_driver_2, GenerateDriver.generate_driver.
    rewrite He, Hp. simpl negb. cbv iota.
    unfold Main2.combine. fold main_marker.
    rewrite (split_generate_driver _ _ _ Hfirst Hnone).
    by rewrite !str_app_assoc.
Qed.

Lemma randomize_first_witness :
  Main2.main (Scenario.parsed Scenario.path Scenario.pipeline_unit)
    "target.c" Scenario.path Scenario.pipeline_names
  = Some ("#include " +:+ dq +:+ "target.c" +:+ dq +:+ nl
          +:+ join nl (GenerateDriver2.driver_lines Scenario.pipeline_unit
                (elements (global_vars
                   (FindGlobalsAndExterns.usage_of Scenario.pipeline_unit
                      Scenario.pipeline_names)))
                (elements (external_funcs
                   (FindGlobalsAndExterns.usage_of Scenario.pipeline_unit
                      Scenario.pipeline_names))))
          +:+ nl +:+ "int main() {" +:+ nl
          +:+ "    randomize_all_global_vars();" +:+ nl
          +:+ main_body (GenerateDriver.function_decls Scenario.pipeline_unit)
                (elements (FindEntrypoints.entrypoints_of
                             Scenario.pipeline_unit
                             Scenario.pipeline_names))).
Proof.
  apply (randomize_first
           (Scenario.parsed Scenario.path Scenario.pipeline_unit)
           "target.c" Scenario.path Scenario.pipeline_unit
           Scenario.pipeline_names); [reflexivity|reflexivity| |].
  - vm_compute. reflexivity.
  - vm_compute. reflexivity.
Defined.

(** The whole pipeline on scenario D: the lines of the assembled driver. *)
Example scenario_pipeline :
  Main2.main (Scenario.parsed Scenario.path Scenario.pipeline_unit)
    "target.c" Scenario.path Scenario.pipeline_names
  = Some (join nl
      [ "#include " +:+ dq +:+ "target.c" +:+ dq;
        "// Forward declarations for utility functions.";
        "void make_unknown(void *data, unsigned long size);";
        "void *alloc_safe(unsigned long size);";
        "void _check_initialized(void *data, unsigned long size);";
        "#define check_initialized(x) _check_initialized(&(x), sizeof(x))";
        EmptyString;
        "void randomize_all_global_vars() {";
        "    make_unknown(&g, sizeof(g));";
        "}";
        EmptyString;
        "void ext(int * p, int arg1) {";
        "    randomize_all_global_vars();";
        "    check_initialized(p);";
        "    check_initialized(*p);";
        "    make_unknown(p, sizeof(*p));";
        "    check_initialized(arg1);";
        "}";
        EmptyString;
        "int main() {";
        "    randomize_all_global_vars();";
        EmptyString;
        "    {";
        "        int * a;";
        "        make_unknown(&a, max(16, sizeof(*a)));";
        "        char b;";
        "        make_unknown(&b, sizeof(b));";
        "        entry(a, b);";
        "    }";
        "    return 0;";
        "}" ]).
Proof. vm_compute. reflexivity. Qed.

(** ** Stub signatures *)

(** In [generate_driver_2.py] every declaration that needs a stub gets
    one, whose signature line carries the return type spelling, the name,
    the type and name of every parameter and, for a variadic type, the
    trailing marker. *)
Lemma stub_emitted (tu : Cursor) (global_vars external_funcs : list string)
    (cursor : Cursor) :
  cursor ∈ walk_preorder tu →
  needs_stub external_funcs cursor = true →
  ∃ before after,
    GenerateDriver2.driver_lines tu global_vars external_funcs
    = before ++ stub_of cursor ++ after.
Proof.
  intros Hin Hneeds. rewrite stubs_driver_lines.
  destruct (concat_map_elem
              (λ cursor, if needs_stub external_funcs cursor
                         then stub_of cursor else [])
              (walk_preorder tu) cursor Hin) as (before & after & ->).
  rewrite Hneeds. exists (stubs_preamble tu global_vars ++ before), after.
  by rewrite <- !app_assoc.
Qed.

(** C4.  For [int my_printf(char* fmt, int i, ...);], the declaration of
    the test of [generate_driver_2.py], the stub written by
    [generate_driver_2.py] ends its parameter list with the variadic
    marker, and the stub written by the copy in
    [standalone_driver_gen.py] does not. *)
Theorem standalone_stub_drops_variadic_marker :
  declared_variadic Scenario.my_printf_decl = true
  ∧ GenerateDriver2.driver_lines (Scenario.unit [Scenario.my_printf_decl])
      [] ["my_printf"]
    = stubs_preamble (Scenario.unit [Scenario.my_printf_decl]) []
      ++ [ "int my_printf(char * fmt, int i, ...) {";
           "    randomize_all_global_vars();";
           "    check_initialized(fmt);";
           "    check_initialized(*fmt);";
           "    make_unknown(fmt, sizeof(*fmt));";
           "    check_initialized(i);";
           "    int out;";
           "    make_unknown(&out, sizeof(out));";
           "    return out;";
           "}" +:+ nl ]
  ∧ Standalone.driver_lines (Scenario.unit [Scenario.my_printf_decl])
      [] ["my_printf"]
    = stubs_preamble (Scenario.unit [Scenario.my_printf_decl]) []
      ++ [ "int my_printf(char * fmt, int i) {";
           "    randomize_all_global_vars();";
           "    check_initialized(fmt);";
           "    check_initialized(*fmt);";
           "    make_unknown(fmt, sizeof(*fmt));";
           "    check_initialized(i);";
           "    int out;";
           "    make_unknown(&out, sizeof(out));";
           "    return out;";
           "}" +:+ nl ].
Proof. repeat split; vm_compute; reflexivity. Qed.

(** ** The filter on the compile command *)

Lemma takes_next_argument_spec (arg : string) :
  starts_with_IDU arg = false →
  bool_decide (arg ∈ ["-isystem"; "-I"; "-include"; "-D"; "-U"])
  = takes_next_argument arg.
Proof.
  intros Hstart. unfold takes_next_argument.
  apply bool_decide_ext. rewrite !elem_of_cons, !elem_of_nil.
  split.
  - intros [->|[->|[->|[->|[->|[]]]]]]; try (by vm_compute in Hstart); tauto.
  - tauto.
Qed.

Lemma fold_keep_option (args pre suf acc : list string) :
  args = pre ++ suf →
  fold_left (PreprocessCFile.keep_option args)
            (imap (λ i arg, (length pre + i, arg)) suf) acc
  = acc ++ kept_options suf.
Proof.
  revert pre acc. induction suf as [|arg rest IH]; intros pre acc Hargs.
  - simpl. by rewrite app_nil_r.
  - rewrite imap_cons. cbn [fold_left kept_options].
    rewrite (imap_ext _ (λ i arg', (length (pre ++ [arg]) + i, arg')) rest);
      [|intros i x _; simpl; rewrite length_app; simpl; f_equal; lia].
    rewrite (IH (pre ++ [arg])) by (by rewrite <- app_assoc).
    rewrite app_assoc. f_equal.
    unfold PreprocessCFile.keep_option. fold (starts_with_IDU arg).
    destruct (starts_with_IDU arg) eqn:Hstart; [done|].
    rewrite (takes_next_argument_spec arg Hstart).
    destruct (takes_next_argument arg); simpl; [|by rewrite app_nil_r].
    subst args. rewrite lookup_app_r by lia.
    replace (length pre + 0 + 1 - length pre) with 1 by lia.
    rewrite length_app. simpl.
    destruct rest as [|next rest]; simpl.
    + rewrite bool_decide_eq_false_2 by lia. by rewrite app_nil_r.
    + rewrite bool_decide_eq_true_2 by lia. by rewrite <- app_assoc.
Qed.

(** In [preprocess_c_file.py] the options handed to the preprocessor are
    the flags starting with [-I], [-D] or [-U] and the [-isystem] and
    [-include] tokens with their following argument. *)
Lemma preprocessor_options_spec (args : list string) :
  PreprocessCFile.preprocessor_options args = kept_options args.
Proof.
  unfold PreprocessCFile.preprocessor_options.
  apply (fold_keep_option args [] args []). done.
Qed.

(** C9.  On a compile command that force-includes a header, the filter
    of [preprocess_c_file.py] keeps [-include] and its argument, and the
    copy of the filter in [main.py] drops both. *)
Theorem main_filter_drops_include :
  PreprocessCFile.clang_command
    ["gcc"; "-DNDEBUG"; "-include"; "config.h"; "-c"; "a.c"] "a.c"
  = ["clang"; "-E"; "-P"; "-DNDEBUG"; "-include"; "config.h"; "a.c"]
  ∧ Main.clang_command
      ["gcc"; "-DNDEBUG"; "-include"; "config.h"; "-c"; "a.c"] "a.c"
    = ["clang"; "-E"; "-P"; "-DNDEBUG"; "a.c"]
  ∧ kept_options ["gcc"; "-DNDEBUG"; "-include"; "config.h"; "-c"; "a.c"]
    = ["-DNDEBUG"; "-include"; "config.h"].
Proof. repeat split; vm_compute; reflexivity. Qed.

(** * Further properties of the scripts *)

(** ** Entrypoint detection *)

Lemma one_hop_callee_names (tu : Cursor) (F F' : list string) (n : string) :
  (∀ m, m ∈ F ↔ m ∈ F') → one_hop_callee tu F n → one_hop_callee tu F' n.
Proof.
  intros Hsame (Hn & cursor & (Hin & Hk & Hd & Hs) & Hcalls).
  split; [by apply Hsame|]. exists cursor. split; [|done].
  repeat split; try done. by apply Hsame.
Qed.

(** X1.  The entrypoint set depends on the names only as a set: two lists
    with the same elements, in whatever order and with whatever
    repetitions, give the same result, failure cases included. *)
Theorem find_entrypoints_names_as_set (fe : Frontend) (p : string)
    (F F' : list string) :
  list_to_set F =@{gset string} list_to_set F' →
  FindEntrypoints.find_entrypoints fe p F
  = FindEntrypoints.find_entrypoints fe p F'.
Proof.
  intros Hset.
  assert (∀ m, m ∈ F ↔ m ∈ F') as Hsame.
  { intros m. rewrite <- !(elem_of_list_to_set (C := gset string)).
    by rewrite Hset. }
  unfold FindEntrypoints.find_entrypoints.
  destruct (path_exists fe p); [|done]. simpl.
  destruct (index_parse fe p) as [tu|]; [|done].
  apply set_eq. intros n. rewrite !entrypoints_of_spec, Hsame.
  split; intros [Hn Hnot]; (split; [done|]); intros Hc; apply Hnot.
  - apply (one_hop_callee_names tu F' F); [intros m; by rewrite Hsame|done].
  - by apply (one_hop_callee_names tu F F').
Qed.

Lemma find_entrypoints_names_as_set_witness :
  FindEntrypoints.find_entrypoints
    (Scenario.parsed Scenario.path Scenario.calls_unit) Scenario.path
    ["main"; "foo"; "bar"; "standalone"; "baz"]
  = FindEntrypoints.find_entrypoints
      (Scenario.parsed Scenario.path Scenario.calls_unit) Scenario.path
      ["baz"; "bar"; "bar"; "standalone"; "foo"; "main"; "baz"].
Proof.
  apply (find_entrypoints_names_as_set
           (Scenario.parsed Scenario.path Scenario.calls_unit) Scenario.path
           ["main"; "foo"; "bar"; "standalone"; "baz"]
           ["baz"; "bar"; "bar"; "standalone"; "foo"; "main"; "baz"]).
  vm_compute. reflexivity.
Defined.

Lemma ranked_calls_edge (tu : Cursor) (F : list string) (rank : string → nat)
    (caller callee : string) :
  ranked_calls tu F rank → calls_edge tu F caller callee →
  rank caller < rank callee.
Proof.
  unfold ranked_calls. rewrite Forall_forall.
  intros Hrank (Hcallee & cursor & (Hin & Hk & Hd & Hs) & <- & Hcalls).
  destruct Hcalls as (child & Hchild & Hck & <-).
  specialize (Hrank cursor Hin Hk Hd Hs). rewrite Forall_forall in Hrank.
  by apply (Hrank child).
Qed.

(** X2.  When the call graph restricted to the analysed names has no
    cycle, every analysed name is reached from some entrypoint through
    calls between analysed definitions; in particular the entrypoint set
    of a non-empty list of names is not empty. *)
Theorem acyclic_names_reached (fe : Frontend) (p : string) (tu : Cursor)
    (F : list string) (rank : string → nat) :
  path_exists fe p = true →
  index_parse fe p = Some tu →
  ranked_calls tu F rank →
  (∀ f, f ∈ F →
     ∃ e, e ∈ FindEntrypoints.find_entrypoints fe p F
          ∧ rtc (calls_edge tu F) e f)
  ∧ (F ≠ [] → FindEntrypoints.find_entrypoints fe p F ≠ ∅).
Proof.
  intros He Hp Hrank. rewrite (find_entrypoints_parsed fe p tu F He Hp).
  assert (∀ k f, rank f < k → f ∈ F →
            ∃ e, e ∈ FindEntrypoints.entrypoints_of tu F
                 ∧ rtc (calls_edge tu F) e f) as Hreach.
  { induction k as [|k IH]; intros f Hk Hf; [lia|].
    destruct (decide (f ∈ FindEntrypoints.collect_callees tu F)) as [Hc|Hc].
    - apply collect_callees_spec in Hc as Hcallee.
      destruct Hcallee as (_ & cursor & Hdef & Hcalls).
      assert (calls_edge tu F (spelling cursor) f) as Hedge.
      { split; [done|]. by exists cursor. }
      pose proof (ranked_calls_edge tu F rank _ _ Hrank Hedge) as Hlt.
      destruct (IH (spelling cursor)) as (e & Hentry & Hpath);
        [lia|apply Hdef|].
      exists e. split; [done|]. by eapply rtc_r.
    - exists f. split; [|apply rtc_refl].
      apply entrypoints_of_spec. split; [done|].
      by rewrite <- collect_callees_spec. }
  split.
  - intros f Hf. by apply (Hreach (S (rank f))); [lia|].
  - intros Hne. destruct F as [|f F']; [done|].
    destruct (Hreach (S (rank f)) f) as (e & Hentry & _);
      [lia|apply elem_of_cons; by left|].
    intros Hempty. rewrite Hempty in Hentry. set_solver.
Qed.

Lemma acyclic_names_reached_witness :
  ranked_calls Scenario.calls_unit Scenario.calls_names calls_rank
  ∧ (∀ f, f ∈ Scenario.calls_names →
       ∃ e, e ∈ FindEntrypoints.find_entrypoints
                  (Scenario.parsed Scenario.path Scenario.calls_unit)
                  Scenario.path Scenario.calls_names
            ∧ rtc (calls_edge Scenario.calls_unit Scenario.calls_names) e f)
  ∧ (Scenario.calls_names ≠ [] →
     FindEntrypoints.find_entrypoints
       (Scenario.parsed Scenario.path Scenario.calls_unit)
       Scenario.path Scenario.calls_names ≠ ∅).
Proof.
  assert (ranked_calls Scenario.calls_unit Scenario.calls_names calls_rank)
    as Hrank.
  { apply (bool_decide_unpack _). vm_compute. exact I. }
  split; [exact Hrank|].
  apply (acyclic_names_reached
           (Scenario.parsed Scenario.path Scenario.calls_unit)
           Scenario.path Scenario.calls_unit Scenario.calls_names calls_rank);
    [reflexivity|reflexivity|exact Hrank].
Defined.

(** ** Usage analysis *)

(** X3.  Once the unit is parsed, [find_globals_and_externs.py] reports
    a global exactly when some analysed definition holds a reference
    resolved to a file-scope variable of that name whose type is not
    const-qualified, and an external function exactly when some analysed
    definition holds a reference resolved to a function declaration of
    that name that is not a definition and is not analysed; no analysed
    name is ever reported as external. *)
Theorem find_globals_and_externs_exact (fe : Frontend) (p : string)
    (tu : Cursor) (F : list string) :
  path_exists fe p = true →
  index_parse fe p = Some tu →
  (∀ n, n ∈ global_vars
              (FindGlobalsAndExterns.find_globals_and_externs fe p F)
        ↔ ∃ func_cursor child, analysed_definition tu F func_cursor
            ∧ child ∈ walk_preorder func_cursor
            ∧ global_reference true child n)
  ∧ (∀ n, n ∈ external_funcs
                (FindGlobalsAndExterns.find_globals_and_externs fe p F)
          ↔ ∃ func_cursor child, analysed_definition tu F func_cursor
              ∧ child ∈ walk_preorder func_cursor
              ∧ external_reference (list_to_set F) child n)
  ∧ (∀ n, n ∈ external_funcs
                (FindGlobalsAndExterns.find_globals_and_externs fe p F) →
          n ∉ F).
Proof.
  intros He Hp.
  destruct (find_globals_and_externs_parsed fe p tu F He Hp) as [-> _].
  split; [|split].
  - apply usage_of_global_vars.
  - apply usage_of_external_funcs.
  - intros n (fc & child & _ & _ & Hx)%usage_of_external_funcs.
    destruct Hx as (_ & _ & _ & Hnot & <-).
    by rewrite elem_of_list_to_set in Hnot.
Qed.

Lemma find_globals_and_externs_exact_witness :
  index_parse (Scenario.parsed Scenario.path Scenario.globals_unit)
    Scenario.path = Some Scenario.globals_unit
  ∧ ∀ n, n ∈ external_funcs
             (FindGlobalsAndExterns.find_globals_and_externs
                (Scenario.parsed Scenario.path Scenario.globals_unit)
                Scenario.path Scenario.globals_names) →
       n ∉ Scenario.globals_names.
Proof.
  split; [reflexivity|].
  exact (proj2 (proj2 (find_globals_and_externs_exact
                         (Scenario.parsed Scenario.path Scenario.globals_unit)
                         Scenario.path Scenario.globals_unit
                         Scenario.globals_names eq_refl eq_refl))).
Defined.

Lemma global_reference_weaken (child : Cursor) (n : string) :
  global_reference true child n → global_reference false child n.
Proof. intros (? & ? & ? & _ & ?). by repeat split. Qed.

(** X4.  The two copies of the usage analyser, on any input: every
    global reported by [find_globals_and_externs.py] is reported by the
    copy in [standalone_driver_gen.py], and both report the same external
    functions. *)
Theorem usage_copies_related (fe : Frontend) (p : string) (F : list string) :
  global_vars (FindGlobalsAndExterns.find_globals_and_externs fe p F)
    ⊆ global_vars (Standalone.find_globals_and_externs fe p F)
  ∧ external_funcs (FindGlobalsAndExterns.find_globals_and_externs fe p F)
    = external_funcs (Standalone.find_globals_and_externs fe p F).
Proof.
  unfold FindGlobalsAndExterns.find_globals_and_externs,
    Standalone.find_globals_and_externs.
  destruct (path_exists fe p); [|done]. simpl.
  destruct (index_parse fe p) as [tu|]; [|done]. split.
  - intros n (fc & child & ? & ? & Hg)%usage_of_global_vars.
    apply standalone_usage_of_global_vars. exists fc, child.
    split; [done|]. split; [done|]. by apply global_reference_weaken.
  - apply set_eq. intros n.
    by rewrite usage_of_external_funcs, standalone_usage_of_external_funcs.
Qed.

(** ** The definition lookup of the entrypoint-call generator *)

Lemma function_decls_fold (l : list Cursor) (m : gmap string Cursor)
    (name : string) :
  fold_left (λ decls cursor,
    if bool_decide (kind cursor = FUNCTION_DECL) && is_definition cursor
    then <[ spelling cursor := cursor ]> decls
    else decls) l m !! name
  = match last (filter (definition_named name) l) with
    | Some cursor => Some cursor
    | None => m !! name
    end.
Proof.
  induction l as [|x l IH] using rev_ind; [done|].
  rewrite fold_left_app, filter_app. cbn [fold_left].
  rewrite filter_cons, filter_nil.
  destruct (decide (definition_named name x)) as [(Hk & Hd & Hs)|Hnot].
  - rewrite last_snoc, bool_decide_eq_true_2, Hd by done. simpl.
    by rewrite <- Hs, lookup_insert_eq.
  - rewrite app_nil_r, <- IH.
    destruct (bool_decide (kind x = FUNCTION_DECL)) eqn:Hk; [|done].
    destruct (is_definition x) eqn:Hd; [|done]. simpl.
    apply bool_decide_eq_true_1 in Hk.
    apply lookup_insert_ne. intros Hs. by apply Hnot.
Qed.

(** X5.  The lookup built by [generate_driver] maps a name to the last
    function definition of that name in the walk of the unit, and to
    nothing when the unit has no such definition. *)
Theorem function_decls_last_definition (tu : Cursor) (name : string) :
  GenerateDriver.function_decls tu !! name
  = last (filter (definition_named name) (walk_preorder tu)).
Proof.
  unfold GenerateDriver.function_decls. rewrite function_decls_fold.
  rewrite lookup_empty. by destruct (last _).
Qed.

(** ** The assembly step of [main2.py] *)

Section SplitFacts.

#[local] Arguments String.append : simpl nomatch.

Lemma split_from_nonempty (sep : string) (skip : nat) (s : string) :
  split_from sep skip s ≠ [].
Proof.
  revert skip. induction s as [|a s IH]; intros skip; [done|].
  cbn [split_from]. destruct skip as [|k]; [|apply IH].
  destruct (String.prefix sep (String a s)); [done|].
  by destruct (split_from sep 0 s).
Qed.

(** With an occurrence of the separator there are at least two pieces. *)
Lemma split_two_pieces (sep s : string) (k : nat) :
  String.index 0 sep s = Some k →
  sep ≠ EmptyString →
  ∃ piece1 piece2 pieces, split sep s = piece1 :: piece2 :: pieces.
Proof.
  intros Hindex Hsep. unfold split. revert k Hindex.
  induction s as [|a s IH]; intros k Hindex.
  - by destruct sep.
  - cbn [String.index] in Hindex. cbn [split_from].
    destruct (String.prefix sep (String a s)).
    + destruct (split_from sep (String.length sep - 1) s) as [|q qs] eqn:Hq;
        [by apply split_from_nonempty in Hq|]. by eexists _, _, _.
    + destruct (String.index 0 sep s) as [k'|]; [|done].
      destruct (IH k' eq_refl) as (p1 & p2 & ps & ->). by eexists _, _, _.
Qed.

(** A text written around the separator holds an occurrence of it. *)
Lemma index_of_written (sep pre post : string) :
  String.index 0 sep (pre +:+ sep +:+ post) ≠ None.
Proof.
  induction pre as [|b pre IH].
  - simpl. destruct sep as [|a sep]; [by destruct post|].
    change (String a sep +:+ post) with (String a (sep +:+ post)).
    cbn [String.index].
    change (String a (sep +:+ post)) with (String a sep +:+ post).
    by rewrite prefix_app.
  - change (String b pre +:+ sep +:+ post)
      with (String b (pre +:+ sep +:+ post)).
    cbn [String.index].
    destruct (String.prefix sep _); [done|].
    by destruct (String.index 0 sep (pre +:+ sep +:+ post)).
Qed.

End SplitFacts.

(** X6.  The combination step fails, with the [IndexError] of the
    subscript, exactly when the entrypoint-call driver does not contain
    the text [int main() {]. *)
Theorem combine_fails_iff (c_file_basename driver_part1 driver_part2 : string) :
  Main2.combine c_file_basename driver_part1 driver_part2 = None
  ↔ String.index 0 main_marker driver_part2 = None.
Proof.
  unfold Main2.combine. fold main_marker. split.
  - destruct (String.index 0 main_marker driver_part2) as [k|] eqn:Hk; [|done].
    destruct (split_two_pieces _ _ _ Hk main_marker_nonempty)
      as (p1 & p2 & ps & ->). done.
  - intros Hnone. by rewrite (split_none _ _ main_marker_nonempty Hnone).
Qed.

Lemma split_written (pre post : string) :
  ∃ piece1 piece2 pieces,
    split main_marker (pre +:+ main_marker +:+ post)
    = piece1 :: piece2 :: pieces.
Proof.
  destruct (String.index 0 main_marker (pre +:+ main_marker +:+ post))
    as [k|] eqn:Hk; [|by apply index_of_written in Hk].
  apply (split_two_pieces _ _ _ Hk main_marker_nonempty).
Qed.

(** X7.  Steps 3 to 5 of [main2.py] end in the [IndexError] exactly when
    the preprocessed file does not exist or does not parse; otherwise a
    driver is produced, whatever the unit and the names. *)
Theorem main_fails_iff (fe : Frontend) (c_file_basename p : string)
    (F : list string) :
  Main2.main fe c_file_basename p F = None
  ↔ path_exists fe p = false ∨ index_parse fe p = None.
Proof.
  unfold Main2.main, GenerateDriver.generate_driver.
  destruct (path_exists fe p); cbn [negb].
  - destruct (index_parse fe p) as [tu|].
    + rewrite generate_driver_text. unfold Main2.combine. fold main_marker.
      match goal with
      | |- context [split main_marker (?pre +:+ main_marker +:+ ?post)] =>
          destruct (split_written pre post) as (p1 & p2 & ps & ->)
      end.
      split; [done|by intros [?|?]].
    + split; [by right|reflexivity].
  - split; [by left|reflexivity].
Qed.

(** ** The environment-stub generator *)

Lemma fold_randomize_var (tu : Cursor) (global_vars : list string)
    (driver_code : list string) :
  fold_left (GenerateDriver2.randomize_var tu) global_vars driver_code
  = driver_code
    ++ map (λ var_name, "    make_unknown(&" +:+ var_name +:+ ", sizeof("
                          +:+ var_name +:+ "));")
           (List.filter (declared_variable tu) global_vars).
Proof.
  revert driver_code.
  induction global_vars as [|v vs IH]; intros driver_code; simpl.
  - by rewrite app_nil_r.
  - rewrite IH. unfold GenerateDriver2.randomize_var.
    fold (declared_variable tu v).
    destruct (declared_variable tu v); [|done].
    by rewrite <- app_assoc.
Qed.

(** X8.  The stub driver opens with the forward declarations and the
    routine [randomize_all_global_vars], which fills, in the order of the
    list, every listed name that some variable declaration of the unit
    spells, and skips the others; the stubs follow. *)
Theorem randomize_routine (tu : Cursor) (global_vars external_funcs : list string) :
  GenerateDriver2.driver_lines tu global_vars external_funcs
  = GenerateDriver2.header
    ++ ["void randomize_all_global_vars() {"]
    ++ map (λ var_name, "    make_unknown(&" +:+ var_name +:+ ", sizeof("
                          +:+ var_name +:+ "));")
           (List.filter (declared_variable tu) global_vars)
    ++ ["}" +:+ nl]
    ++ concat (map (λ cursor, if needs_stub external_funcs cursor
                              then stub_of cursor else [])
                   (walk_preorder tu)).
Proof.
  rewrite stubs_driver_lines. unfold stubs_preamble.
  rewrite fold_randomize_var. by rewrite <- !app_assoc.
Qed.

Lemma fold_check_param (l : list Cursor) (driver_code : list string) (i : nat) :
  fold_left GenerateDriver2.check_param l (driver_code, i)
  = (driver_code
       ++ concat (imap (λ k param, check_lines (i + k) param)
                       (filter (λ c, kind c = PARM_DECL) l)),
     i + length (filter (λ c, kind c = PARM_DECL) l)).
Proof.
  revert driver_code i.
  induction l as [|param l IH]; intros driver_code i; cbn [fold_left].
  - simpl. by rewrite app_nil_r, Nat.add_0_r.
  - rewrite filter_cons. unfold GenerateDriver2.check_param at 2.
    case_bool_decide as Hk.
    + rewrite decide_True by done. rewrite IH. cbn [imap concat length].
      rewrite Nat.add_0_r.
      f_equal; [|lia]. rewrite app_assoc. f_equal.
      * unfold check_lines, stub_param_name.
        case_bool_decide;
          [destruct (GenerateDriver2.pointee_is_const_qualified _)|];
          simpl; by rewrite <- ?app_assoc, ?app_nil_r.
      * f_equal. apply imap_ext. intros k x _. simpl.
        by replace (i + 1 + k) with (i + S k) by lia.
    + rewrite decide_False by done. apply IH.
Qed.

Lemma return_lines_spec (cursor : Cursor) :
  GenerateDriver2.return_lines cursor [] = result_lines cursor.
Proof.
  unfold GenerateDriver2.return_lines, result_lines.
  destruct (ty_kind (result_type cursor)); done.
Qed.

(** X9.  The stub written for a declaration is, line by line: the
    signature; the call to [randomize_all_global_vars]; for every
    parameter in order a check of the parameter, and for a pointer
    parameter a check of the pointee followed, unless the pointee type is
    const-qualified, by an overwrite of the pointee; for a result type
    other than [void] a local [out] (allocated through [alloc_safe] for
    a pointer type), its fill and its return; the closing brace. *)
Theorem stub_shape (external_funcs : list string) (driver_code : list string)
    (cursor : Cursor) :
  needs_stub external_funcs cursor = true →
  GenerateDriver2.emit_stub external_funcs driver_code cursor
  = driver_code
    ++ [ GenerateDriver2.signature_line cursor
           (GenerateDriver2.add_variadic cursor (stub_param_decls cursor));
         "    randomize_all_global_vars();" ]
    ++ concat (imap check_lines
                 (filter (λ c, kind c = PARM_DECL) (get_children cursor)))
    ++ result_lines cursor
    ++ ["}" +:+ nl].
Proof.
  intros Hneeds. rewrite emit_stub_spec, Hneeds. f_equal.
  unfold stub_of, stub_rest. rewrite fold_check_param, return_lines_spec.
  rewrite add_variadic_spec. unfold GenerateDriver2.signature_line.
  cbn [fst]. by rewrite app_nil_l.
Qed.

Lemma stub_shape_witness :
  needs_stub ["ext"] ext_decl = true
  ∧ GenerateDriver2.emit_stub ["ext"] [] ext_decl
    = []
      ++ [ GenerateDriver2.signature_line ext_decl
             (GenerateDriver2.add_variadic ext_decl
                (stub_param_decls ext_decl));
           "    randomize_all_global_vars();" ]
      ++ concat (imap check_lines
                   (filter (λ c, kind c = PARM_DECL)
                           (get_children ext_decl)))
      ++ result_lines ext_decl
      ++ ["}" +:+ nl].
Proof.
  split; [reflexivity|].
  apply (stub_shape ["ext"] [] ext_decl). reflexivity.
Defined.

Lemma stub_emitted_witness :
  ∃ before after,
    GenerateDriver2.driver_lines Scenario.pipeline_unit ["g"] ["ext"]
    = before ++ stub_of ext_decl ++ after.
Proof.
  apply (stub_emitted Scenario.pipeline_unit ["g"] ["ext"] ext_decl).
  - apply (list_elem_of_lookup_2 _ 2). reflexivity.
  - reflexivity.
Defined.

(** ** The names of an entrypoint block *)

Lemma block_arg_names_distinct_witness :
  NoDup (block_arg_names takes_ptr_def).
Proof.
  apply (block_arg_names_distinct takes_ptr_def).
  - intros [|[|i]] [|[|j]] p q Hp Hq Hne Heq; try done.
    + injection Hp as <-. injection Hq as <-. done.
    + injection Hp as <-. injection Hq as <-. done.
  - intros [|[|i]] p k Hp Hk; [| |done].
    + injection Hp as <-. simpl in Hk.
      destruct k as [|[|k]]; [done|done|lia].
    + injection Hp as <-. simpl in Hk.
      destruct k as [|[|k]]; [done|done|lia].
Defined.

(** ** The filter on the compile command, in its two copies *)

Lemma main_fold_keep_option (args pre suf acc : list string) :
  args = pre ++ suf →
  fold_left (Main.keep_option args)
            (imap (λ i arg, (length pre + i, arg)) suf) acc
  = acc ++ main_kept_options suf.
Proof.
  revert pre acc. induction suf as [|arg rest IH]; intros pre acc Hargs.
  - simpl. by rewrite app_nil_r.
  - rewrite imap_cons. cbn [fold_left main_kept_options].
    rewrite (imap_ext _ (λ i arg', (length (pre ++ [arg]) + i, arg')) rest);
      [|intros i x _; simpl; rewrite length_app; simpl; f_equal; lia].
    rewrite (IH (pre ++ [arg])) by (by rewrite <- app_assoc).
    rewrite app_assoc. f_equal.
    unfold Main.keep_option. fold (starts_with_IDU arg).
    destruct (starts_with_IDU arg) eqn:Hstart; [done|].
    destruct (bool_decide (arg ∈ ["-isystem"])); simpl;
      [|by rewrite app_nil_r].
    subst args. rewrite lookup_app_r by lia.
    replace (length pre + 0 + 1 - length pre) with 1 by lia.
    rewrite length_app. simpl.
    destruct rest as [|next rest]; simpl.
    + rewrite bool_decide_eq_false_2 by lia. by rewrite app_nil_r.
    + rewrite bool_decide_eq_true_2 by lia. by rewrite <- app_assoc.
Qed.

Lemma main_preprocessor_options_spec (args : list string) :
  Main.preprocessor_options args = main_kept_options args.
Proof.
  unfold Main.preprocessor_options.
  apply (main_fold_keep_option args [] args []). done.
Qed.

Lemma kept_options_from_args (args : list string) (x : string) :
  x ∈ kept_options args → x ∈ args.
Proof.
  induction args as [|arg rest IH]; [done|]. cbn [kept_options].
  rewrite elem_of_app, elem_of_cons. intros [Hhead|Htail]; [|by right; apply IH].
  destruct (starts_with_IDU arg).
  - apply list_elem_of_singleton in Hhead. by left.
  - destruct (takes_next_argument arg); [|by inversion Hhead].
    destruct rest as [|next rest]; [by inversion Hhead|].
    apply elem_of_cons in Hhead as [->|Hnext]; [by left|].
    apply list_elem_of_singleton in Hnext as ->.
    right. apply elem_of_cons. by left.
Qed.

Lemma kept_options_keeps_IDU (args : list string) (arg : string) :
  arg ∈ args → starts_with_IDU arg = true → arg ∈ kept_options args.
Proof.
  intros Hin Hstart. induction args as [|a rest IH]; [by inversion Hin|].
  cbn [kept_options]. apply elem_of_app.
  apply elem_of_cons in Hin as [<-|Hin]; [|by right; apply IH].
  left. rewrite Hstart. by apply list_elem_of_singleton.
Qed.

(** X10.  In [preprocess_c_file.py], the options handed to the
    preprocessor are computed as the description of the filter has them;
    every one of them is an argument of the compile command, and every
    argument starting with [-I], [-D] or [-U] is among them. *)
Theorem preprocessor_options_sound (args : list string) :
  PreprocessCFile.preprocessor_options args = kept_options args
  ∧ (∀ x, x ∈ PreprocessCFile.preprocessor_options args → x ∈ args)
  ∧ (∀ arg, arg ∈ args → starts_with_IDU arg = true →
            arg ∈ PreprocessCFile.preprocessor_options args).
Proof.
  rewrite preprocessor_options_spec. split; [done|]. split.
  - apply kept_options_from_args.
  - apply kept_options_keeps_IDU.
Qed.

(** X11.  The copy of the filter in [main.py] keeps a sub-list of what
    [preprocess_c_file.py] keeps, and exactly the same list when the
    compile command has no [-include] token. *)
Theorem main_filter_keeps_less (args : list string) :
  Main.preprocessor_options args
    `sublist_of` PreprocessCFile.preprocessor_options args
  ∧ ("-include" ∉ args →
     Main.preprocessor_options args
     = PreprocessCFile.preprocessor_options args).
Proof.
  rewrite main_preprocessor_options_spec, preprocessor_options_spec. split.
  - induction args as [|arg rest IH]; [done|].
    cbn [main_kept_options kept_options]. apply sublist_app; [|done].
    destruct (starts_with_IDU arg); [done|].
    unfold takes_next_argument. case_bool_decide as Hsys.
    + apply list_elem_of_singleton in Hsys as ->. done.
    + apply sublist_nil_l.
  - induction args as [|arg rest IH]; [done|]. intros Hno.
    cbn [main_kept_options kept_options].
    rewrite IH by (intros ?; apply Hno, elem_of_cons; by right). f_equal.
    destruct (starts_with_IDU arg); [done|].
    unfold takes_next_argument.
    case_bool_decide as Hsys; case_bool_decide as Htok; try done.
    + destruct Htok. apply list_elem_of_singleton in Hsys as ->.
      apply elem_of_cons. by left.
    + apply elem_of_cons in Htok as [->|Htok];
        [destruct Hsys; by apply list_elem_of_singleton|].
      apply list_elem_of_singleton in Htok as ->.
      destruct Hno. apply elem_of_cons. by left.
Qed.

Lemma main_filter_keeps_less_witness :
  ("-include" ∉ ["gcc"; "-Iinc"; "-isystem"; "/opt/sys"; "-O2"; "a.c"])
  ∧ Main.preprocessor_options
      ["gcc"; "-Iinc"; "-isystem"; "/opt/sys"; "-O2"; "a.c"]
    = PreprocessCFile.preprocessor_options
        ["gcc"; "-Iinc"; "-isystem"; "/opt/sys"; "-O2"; "a.c"].
Proof.
  assert ("-include" ∉ ["gcc"; "-Iinc"; "-isystem"; "/opt/sys"; "-O2"; "a.c"])
    as Hno by (apply (bool_decide_unpack _); vm_compute; exact I).
  split; [exact Hno|].
  by apply (main_filter_keeps_less
              ["gcc"; "-Iinc"; "-isystem"; "/opt/sys"; "-O2"; "a.c"]).
Defined.

(** ** The analyses feeding the generators *)

Lemma entry_lines_in_driver (c_file_name : string) (tu : Cursor)
    (entrypoints : gset string) (e : string) :
  e ∈ entrypoints →
  ∃ before after,
    GenerateDriver.driver_lines c_file_name tu (elements entrypoints)
    = before ++ entry_lines (GenerateDriver.function_decls tu) e ++ after.
Proof.
  intros Hentry. rewrite driver_lines_spec.
  destruct (concat_map_elem
              (entry_lines (GenerateDriver.function_decls tu))
              (elements entrypoints) e)
    as (before & after & Heq); [by apply elem_of_elements|].
  rewrite Heq.
  exists (GenerateDriver.header c_file_name ++ before),
         (after ++ ["    return 0;"; "}"]).
  by rewrite <- !app_assoc.
Qed.

Lemma stub_in_driver (tu : Cursor) (global_vars : list string)
    (external_funcs : gset string) (cursor : Cursor) :
  cursor ∈ walk_preorder tu →
  kind cursor = FUNCTION_DECL → is_definition cursor = false →
  spelling cursor ∈ external_funcs →
  ∃ before after,
    GenerateDriver2.driver_lines tu global_vars (elements external_funcs)
    = before ++ stub_of cursor ++ after.
Proof.
  intros Hin Hk Hd Hx. rewrite stubs_driver_lines.
  destruct (concat_map_elem
              (λ cursor, if needs_stub (elements external_funcs) cursor
                         then stub_of cursor else [])
              (walk_preorder tu) cursor Hin) as (before & after & Heq).
  rewrite Heq.
  assert (needs_stub (elements external_funcs) cursor = true) as Hneeds.
  { unfold needs_stub. rewrite Hd, (bool_decide_eq_true_2 _ Hk).
    rewrite bool_decide_eq_true_2; [done|]. by apply elem_of_elements. }
  rewrite Hneeds.
  exists (stubs_preamble tu global_vars ++ before), after.
  by rewrite <- !app_assoc.
Qed.

Lemma fill_line_in_driver (tu : Cursor) (global_vars : gset string)
    (external_funcs : list string) (var_name : string) :
  var_name ∈ global_vars →
  declared_variable tu var_name = true →
  "    make_unknown(&" +:+ var_name +:+ ", sizeof(" +:+ var_name +:+ "));"
    ∈ GenerateDriver2.driver_lines tu (elements global_vars) external_funcs.
Proof.
  intros Hv Hdecl. rewrite stubs_driver_lines. unfold stubs_preamble.
  rewrite fold_randomize_var.
  apply elem_of_app. left. apply elem_of_app. left. apply elem_of_app. right.
  apply list_elem_of_fmap. exists var_name. split; [done|].
  apply list_elem_of_In, filter_In. split; [|done].
  apply list_elem_of_In. by apply elem_of_elements.
Qed.

(** X14.  In steps 3 to 5 of [main2.py], once the unit is parsed:
    every name of the entrypoint set has its lines, block or warning, in
    the entrypoint-call driver; every declaration of the unit that is not
    a definition and is named in the reported external functions has its
    stub in the stub driver; and every reported global that some variable
    declaration of the unit spells has its fill line there. *)
Theorem analyses_reach_the_driver (fe : Frontend) (c_file_basename p : string)
    (tu : Cursor) (F : list string) :
  path_exists fe p = true →
  index_parse fe p = Some tu →
  (∀ e, e ∈ FindEntrypoints.find_entrypoints fe p F →
     ∃ before after,
       GenerateDriver.driver_lines c_file_basename tu
         (elements (FindEntrypoints.find_entrypoints fe p F))
       = before ++ entry_lines (GenerateDriver.function_decls tu) e ++ after)
  ∧ (∀ cursor, cursor ∈ walk_preorder tu →
       kind cursor = FUNCTION_DECL → is_definition cursor = false →
       spelling cursor
         ∈ external_funcs
             (FindGlobalsAndExterns.find_globals_and_externs fe p F) →
       ∃ before after,
         GenerateDriver2.driver_lines tu
           (elements (global_vars
              (FindGlobalsAndExterns.find_globals_and_externs fe p F)))
           (elements (external_funcs
              (FindGlobalsAndExterns.find_globals_and_externs fe p F)))
         = before ++ stub_of cursor ++ after)
  ∧ (∀ var_name,
       var_name ∈ global_vars
                    (FindGlobalsAndExterns.find_globals_and_externs fe p F) →
       declared_variable tu var_name = true →
       "    make_unknown(&" +:+ var_name +:+ ", sizeof(" +:+ var_name +:+ "));"
         ∈ GenerateDriver2.driver_lines tu
             (elements (global_vars
                (FindGlobalsAndExterns.find_globals_and_externs fe p F)))
             (elements (external_funcs
                (FindGlobalsAndExterns.find_globals_and_externs fe p F)))).
Proof.
  intros He Hp. split; [|split].
  - intros e. apply entry_lines_in_driver.
  - intros cursor. apply stub_in_driver.
  - intros var_name. apply fill_line_in_driver.
Qed.

Lemma analyses_reach_the_driver_witness :
  index_parse (Scenario.parsed Scenario.path Scenario.pipeline_unit)
    Scenario.path = Some Scenario.pipeline_unit
  ∧ ∀ e, e ∈ FindEntrypoints.find_entrypoints
             (Scenario.parsed Scenario.path Scenario.pipeline_unit)
             Scenario.path Scenario.pipeline_names →
    ∃ before after,
      GenerateDriver.driver_lines "target.c" Scenario.pipeline_unit
        (elements (FindEntrypoints.find_entrypoints
                     (Scenario.parsed Scenario.path Scenario.pipeline_unit)
                     Scenario.path Scenario.pipeline_names))
      = before
        ++ entry_lines (GenerateDriver.function_decls Scenario.pipeline_unit) e
        ++ after.
Proof.
  split; [reflexivity|].
  exact (proj1 (analyses_reach_the_driver
                  (Scenario.parsed Scenario.path Scenario.pipeline_unit)
                  "target.c" Scenario.path Scenario.pipeline_unit
                  Scenario.pipeline_names eq_refl eq_refl)).
Defined.
